(** * libOS bits.h: bit, flag, multi-byte and array codec macros

    A shallow embedding of the macros of [include/libos/bits.h] and the
    properties the specification states about them, followed by the time
    functions and the log backend of the desktop platform and further
    properties read off the code.

    The header exists in two revisions.  The earlier one took the bytes of
    [COMBINE_BYTES_16] and [COMBINE_BYTES_32] least significant first and
    moved words to and from a buffer through a [uint16_t] or [uint32_t]
    pointer, in the byte order of the host.  The later one, which the
    specification describes and which is embedded here, takes the bytes
    most significant first, moves words byte by byte in big-endian order,
    and adds the byte reversal macros.

    Conventions of the embedding:
    - a C integer is a [Z]; a conversion to an unsigned type of [w] bits is
      the reduction modulo [2 ^ w], written out where the C text has a cast
      or an assignment to a narrower lvalue;
    - [int] is 32 bits wide, as on the targets the library is built for
      (ESP-IDF and the desktop platform); operands narrower than [int] are
      promoted to it, and [&], [|], [~], [<<], [>>] are the two's complement
      operations of [Z]; values are at most 32 bits wide (8, 16 or 32 in
      the specification);
    - a macro that assigns to its first argument returns the new content of
      that lvalue, whose width [w] is an explicit argument;
    - a byte buffer is a [list Z] of bytes addressed by a [nat] offset; an
      access outside the buffer has no defined behaviour in C and is [None]
      here. *)

From Stdlib Require Import ZArith Lia Bool Ascii String Btauto.
From stdpp Require Import base option list strings pretty.

Local Open Scope Z_scope.

(** ** C integer conversions *)

Module CInt.

(** Conversion to an unsigned type of [w] bits. *)
Definition wrap (w x : Z) : Z := x mod 2 ^ w.

Definition uint8_t : Z -> Z := wrap 8.
Definition uint16_t : Z -> Z := wrap 16.
Definition uint32_t : Z -> Z := wrap 32.

(** The [int] a two's complement target leaves in the register for the
    mathematical value [x]. *)
Definition to_int (x : Z) : Z := (x + 2 ^ 31) mod 2 ^ 32 - 2 ^ 31.

(** [a << n] computed in [int].  Where the mathematical result leaves the
    range of [int] (only [1 << 31] among the in-range flag positions) the
    value is the two's complement one, which is what GCC documents for
    [<<] on a signed operand. *)
Definition shl_int (a n : Z) : Z := to_int (Z.shiftl a n).

(** [a == b] where both operands are at most 32 bits wide: after the
    usual arithmetic conversions the comparison is one of [int] or of
    [unsigned int], which both compare the 32 low bits. *)
Definition c_eq (a b : Z) : bool := wrap 32 a =? wrap 32 b.

Definition c_ne (a b : Z) : bool := negb (c_eq a b).

(** The values of an unsigned type of [w] bits. *)
Definition in_range (w x : Z) : Prop := 0 <= x < 2 ^ w.

End CInt.

Import CInt.

(** ** The macros of bits.h *)

Module Bits.

(** [#define GET_MASK(value, mask) ((value) & (mask))] *)
Definition GET_MASK (value mask : Z) : Z := Z.land value mask.

(** [#define HAS_MASK(value, mask)
      ((GET_MASK(value, mask) == (mask)) && ((mask) != 0))] *)
Definition HAS_MASK (value mask : Z) : bool :=
  c_eq (GET_MASK value mask) mask && c_ne mask 0.

(** [#define ONLY_MASK(value, mask)
      (((GET_MASK(value, mask) == (mask)) &&
        (((value) & (mask)) == (value))))] *)
Definition ONLY_MASK (value mask : Z) : bool :=
  c_eq (GET_MASK value mask) mask && c_eq (Z.land value mask) value.

(** [#define HAS_FLAG(value, flag_pos) (HAS_MASK(value, 1 << flag_pos))] *)
Definition HAS_FLAG (value flag_pos : Z) : bool :=
  HAS_MASK value (shl_int 1 flag_pos).

(** [#define ONLY_FLAG(value, flag_pos)
      ((HAS_FLAG(value, flag_pos) &&
        (((value) & (1 << (flag_pos))) == (value))))] *)
Definition ONLY_FLAG (value flag_pos : Z) : bool :=
  HAS_FLAG value flag_pos && c_eq (Z.land value (shl_int 1 flag_pos)) value.

(** [#define SET_MASK(value, mask) ((value) = ((value) & ~(mask)) | (mask))] *)
Definition SET_MASK (w value mask : Z) : Z :=
  wrap w (Z.lor (Z.land value (Z.lnot mask)) mask).

(** [#define CLEAR_MASK(value, mask) ((value) = ((value) & ~(mask)))] *)
Definition CLEAR_MASK (w value mask : Z) : Z :=
  wrap w (Z.land value (Z.lnot mask)).

(** [#define SET_FLAG(value, flag_pos) (SET_MASK(value, (1 << flag_pos)))] *)
Definition SET_FLAG (w value flag_pos : Z) : Z :=
  SET_MASK w value (shl_int 1 flag_pos).

(** [#define CLEAR_FLAG(value, flag_pos)
      (CLEAR_MASK(value, (1 << flag_pos)))] *)
Definition CLEAR_FLAG (w value flag_pos : Z) : Z :=
  CLEAR_MASK w value (shl_int 1 flag_pos).

(** [#define SET_MASKED_VALUE(value, set_mask, set_value)
      ((value) = (((value) & (~set_mask)) | ((set_value) & (set_mask))))] *)
Definition SET_MASKED_VALUE (w value set_mask set_value : Z) : Z :=
  wrap w (Z.lor (Z.land value (Z.lnot set_mask)) (Z.land set_value set_mask)).

(** [#define COMBINE_BYTES_16(higher, lower)
      (((uint16_t)(lower)) | (((uint16_t)(higher)) << 8))]
    Both casts are promoted to [int] before [<<] and [|]; the result is
    below [2 ^ 24] and so never leaves the range of [int]. *)
Definition COMBINE_BYTES_16 (higher lower : Z) : Z :=
  Z.lor (uint16_t lower) (Z.shiftl (uint16_t higher) 8).

(** [#define COMBINE_BYTES_32(higher, higher_middle, lower_middle, lower)
      ((uint32_t)COMBINE_BYTES_16(lower_middle, lower) |
       ((uint32_t)COMBINE_BYTES_16(higher, higher_middle) << 16))]
    The shift is one of [uint32_t] and drops what leaves the 32 bits. *)
Definition COMBINE_BYTES_32 (higher higher_middle lower_middle lower : Z) : Z :=
  Z.lor (uint32_t (COMBINE_BYTES_16 lower_middle lower))
        (uint32_t (Z.shiftl (uint32_t (COMBINE_BYTES_16 higher higher_middle)) 16)).

(** *** Byte buffers *)

(** [*((uint8_t * )(data) + i)] read. *)
Definition load_u8 (data : list Z) (i : nat) : option Z := data !! i.

(** [*((uint8_t * )(data) + i) = b]: the stored value is converted to
    [uint8_t]. *)
Definition store_u8 (data : list Z) (i : nat) (b : Z) : option (list Z) :=
  if decide (i < length data)%nat then Some (<[i := uint8_t b]> data) else None.

(** A buffer holds bytes. *)
Definition byte_buffer (data : list Z) : Prop := Forall (in_range 8) data.

(** [#define SET_16_IN_ARRAY(data, value, byte_offset) do {
      uint16_t __val = (value);
      ( *((uint8_t * )(data) + (size_t)((byte_offset) + 0)) = ((__val >> 8) & 0xFF));
      ( *((uint8_t * )(data) + (size_t)((byte_offset) + 1)) = ((__val >> 0) & 0xFF));
    } while(0)] *)
Definition SET_16_IN_ARRAY (data : list Z) (value : Z) (byte_offset : nat)
  : option (list Z) :=
  let __val := uint16_t value in
  data ← store_u8 data (byte_offset + 0) (Z.land (Z.shiftr __val 8) 0xFF);
  store_u8 data (byte_offset + 1) (Z.land (Z.shiftr __val 0) 0xFF).

(** [#define SET_32_IN_ARRAY(data, value, byte_offset) do {
      uint32_t __val = (value);
      uint8_t *__data = ((uint8_t * )(data) + (size_t)(byte_offset));
      *(__data + 0) = ((__val >> 24) & 0xFF);
      *(__data + 1) = ((__val >> 16) & 0xFF);
      *(__data + 2) = ((__val >>  8) & 0xFF);
      *(__data + 3) = ((__val >>  0) & 0xFF);
    } while(0)] *)
Definition SET_32_IN_ARRAY (data : list Z) (value : Z) (byte_offset : nat)
  : option (list Z) :=
  let __val := uint32_t value in
  data ← store_u8 data (byte_offset + 0) (Z.land (Z.shiftr __val 24) 0xFF);
  data ← store_u8 data (byte_offset + 1) (Z.land (Z.shiftr __val 16) 0xFF);
  data ← store_u8 data (byte_offset + 2) (Z.land (Z.shiftr __val 8) 0xFF);
  store_u8 data (byte_offset + 3) (Z.land (Z.shiftr __val 0) 0xFF).

(** [#define GET_16_IN_ARRAY(data, byte_offset) ((uint16_t)(
      ((uint16_t)( *(((uint8_t * )data) + (size_t)((byte_offset) + 0))) << 8) |
      ((uint16_t)( *(((uint8_t * )data) + (size_t)((byte_offset) + 1))) << 0)))] *)
Definition GET_16_IN_ARRAY (data : list Z) (byte_offset : nat) : option Z :=
  b0 ← load_u8 data (byte_offset + 0);
  b1 ← load_u8 data (byte_offset + 1);
  Some (uint16_t (Z.lor (Z.shiftl (uint16_t b0) 8) (Z.shiftl (uint16_t b1) 0))).

(** [#define GET_32_IN_ARRAY(data, byte_offset) ((uint32_t)(
      ((uint32_t)( *(((uint8_t * )data) + (size_t)((byte_offset) + 0))) << 24) |
      ((uint32_t)( *(((uint8_t * )data) + (size_t)((byte_offset) + 1))) << 16) |
      ((uint32_t)( *(((uint8_t * )data) + (size_t)((byte_offset) + 2))) << 8)  |
      ((uint32_t)( *(((uint8_t * )data) + (size_t)((byte_offset) + 3))) << 0)))] *)
Definition GET_32_IN_ARRAY (data : list Z) (byte_offset : nat) : option Z :=
  b0 ← load_u8 data (byte_offset + 0);
  b1 ← load_u8 data (byte_offset + 1);
  b2 ← load_u8 data (byte_offset + 2);
  b3 ← load_u8 data (byte_offset + 3);
  Some (uint32_t
          (Z.lor (Z.lor (Z.lor (uint32_t (Z.shiftl (uint32_t b0) 24))
                               (uint32_t (Z.shiftl (uint32_t b1) 16)))
                        (uint32_t (Z.shiftl (uint32_t b2) 8)))
                 (uint32_t (Z.shiftl (uint32_t b3) 0)))).

(** [#define REVERSE_BYTES_IN_ARRAY_16BIT(data, byte_offset) do {
      uint8_t *__data = ((uint8_t * )(data) + (size_t)(byte_offset));
      uint8_t __temp = *__data;
      *(__data + 0) = *(__data + 1);
      *(__data + 1) = __temp;
    } while(0)] *)
Definition REVERSE_BYTES_IN_ARRAY_16BIT (data : list Z) (byte_offset : nat)
  : option (list Z) :=
  __temp ← load_u8 data (byte_offset + 0);
  b1 ← load_u8 data (byte_offset + 1);
  data ← store_u8 data (byte_offset + 0) b1;
  store_u8 data (byte_offset + 1) __temp.

(** [#define REVERSE_BYTES_IN_ARRAY_32BIT(data, byte_offset) do {
      uint8_t *__data = ((uint8_t * )(data) + (size_t)(byte_offset));
      uint8_t __temp = *(__data + 0);
      *(__data + 0) = *(__data + 3);
      *(__data + 3) = __temp;
      __temp = *(__data + 1);
      *(__data + 1) = *(__data + 2);
      *(__data + 2) = __temp;
    } while(0)] *)
Definition REVERSE_BYTES_IN_ARRAY_32BIT (data : list Z) (byte_offset : nat)
  : option (list Z) :=
  __temp ← load_u8 data (byte_offset + 0);
  b3 ← load_u8 data (byte_offset + 3);
  data ← store_u8 data (byte_offset + 0) b3;
  data ← store_u8 data (byte_offset + 3) __temp;
  __temp ← load_u8 data (byte_offset + 1);
  b2 ← load_u8 data (byte_offset + 2);
  data ← store_u8 data (byte_offset + 1) b2;
  store_u8 data (byte_offset + 2) __temp.

End Bits.

Import Bits.

(** [same_outside off n data data']: the buffers have the same length and
    agree on every byte outside the [n] bytes that start at [off]. *)
Definition same_outside (off n : nat) (data data' : list Z) : Prop :=
  length data' = length data
  /\ forall i : nat, (i < off \/ off + n <= i)%nat -> data' !! i = data !! i.

(** ** The nibble macros of bits.h *)

Module Nibbles.

(** [#define GET_LOWER_NIBBLE(value) ((value) & 0xF)] *)
Definition GET_LOWER_NIBBLE (value : Z) : Z := Z.land value 0xF.

(** [#define GET_UPPER_NIBBLE(value) (((value) >> 4) & 0xF)] *)
Definition GET_UPPER_NIBBLE (value : Z) : Z := Z.land (Z.shiftr value 4) 0xF.

(** [#define SET_LOWER_NIBBLE(value, nibble)
      ((value) = ((value & 0xF0) | ((uint8_t)(nibble) & 0xF)))] *)
Definition SET_LOWER_NIBBLE (w value nibble : Z) : Z :=
  wrap w (Z.lor (Z.land value 0xF0) (Z.land (uint8_t nibble) 0xF)).

(** [#define SET_UPPER_NIBBLE(value, nibble)
      ((value) = ((value & 0xF) | (((uint8_t)(nibble) & 0xF) << 4)))] *)
Definition SET_UPPER_NIBBLE (w value nibble : Z) : Z :=
  wrap w (Z.lor (Z.land value 0xF) (Z.shiftl (Z.land (uint8_t nibble) 0xF) 4)).

End Nibbles.

Import Nibbles.

(** ** The desktop platform: time.c

    [libos_time_t] and the unit types are [int_least64_t], taken as 64
    bits wide; the time is a count of microseconds.  An arithmetic result
    outside the type has no defined behaviour in C and is [None] here.
    [/] is the division of C, which truncates towards zero. *)

Module Time.

Definition INT64_MIN : Z := - 2 ^ 63.
Definition INT64_MAX : Z := 2 ^ 63 - 1.

(** The result of an operation of [int_least64_t]. *)
Definition int64 (x : Z) : option Z :=
  if decide (INT64_MIN <= x <= INT64_MAX) then Some x else None.

(** [struct timeval tv; gettimeofday(&tv, NULL);
     return (libos_time_t)(((libos_time_t)tv.tv_sec * 1000000) + tv.tv_usec);]
    The two fields that [gettimeofday] filled in are the arguments. *)
Definition libos_time_get_now (tv_sec tv_usec : Z) : option Z :=
  us ← int64 (tv_sec * 1000000);
  int64 (us + tv_usec).

(** [return a - b;] *)
Definition libos_time_difference_us (a b : Z) : option Z := int64 (a - b).

(** [return (a - b) / 1000;] *)
Definition libos_time_difference_ms (a b : Z) : option Z :=
  d ← int64 (a - b);
  Some (Z.quot d 1000).

(** [return (a - b) / 1000 / 1000;] *)
Definition libos_time_difference_s (a b : Z) : option Z :=
  d ← int64 (a - b);
  Some (Z.quot (Z.quot d 1000) 1000).

(** [return (libos_time_t)us;] *)
Definition libos_time_from_us (us : Z) : option Z := Some us.

(** [return (libos_time_t)ms * 1000;] *)
Definition libos_time_from_ms (ms : Z) : option Z := int64 (ms * 1000).

(** [return (libos_time_t)s * 1000 * 1000;] *)
Definition libos_time_from_s (s : Z) : option Z :=
  ms ← int64 (s * 1000);
  int64 (ms * 1000).

(** [return (time / 1000 / 1000);] *)
Definition libos_time_to_s (time : Z) : Z := Z.quot (Z.quot time 1000) 1000.

(** [return (time / 1000);] *)
Definition libos_time_to_ms (time : Z) : Z := Z.quot time 1000.

(** [return time;] *)
Definition libos_time_to_us (time : Z) : Z := time.

(** [return (a - b);] *)
Definition libos_time_subtract (a b : Z) : option Z := int64 (a - b).

(** [return (a + b);] *)
Definition libos_time_add (a b : Z) : option Z := int64 (a + b).

(** [return a > b;] *)
Definition libos_time_is_later (a b : Z) : bool := a >? b.

(** [return a < b;] *)
Definition libos_time_is_earlier (a b : Z) : bool := a <? b.

(** [return a == b;] *)
Definition libos_time_is_same (a b : Z) : bool := a =? b.

End Time.

Import Time.

(** ** The desktop platform: log.c and the log headers *)

Module Log.

(** [#define LIBOS_LOG_LEVEL_ERR 0] and the three levels after it. *)
Definition LIBOS_LOG_LEVEL_ERR : Z := 0.
Definition LIBOS_LOG_LEVEL_WRN : Z := 1.
Definition LIBOS_LOG_LEVEL_INF : Z := 2.
Definition LIBOS_LOG_LEVEL_DBG : Z := 3.

(** [typedef struct log_module { int level; const char* name; } log_module_t;] *)
Record log_module_t : Type := { level : Z; name : string }.

(** [static const char *err_to_name(int level)]: a chain of [if] and
    [else if] over the four levels, [unkown_name] last. *)
Definition err_to_name (level : Z) : string :=
  if level =? LIBOS_LOG_LEVEL_ERR then "ERR"
  else if level =? LIBOS_LOG_LEVEL_WRN then "WRN"
  else if level =? LIBOS_LOG_LEVEL_INF then "INF"
  else if level =? LIBOS_LOG_LEVEL_DBG then "DBG"
  else "UNK".

Fixpoint spaces (n : nat) : string :=
  match n with
  | O => EmptyString
  | S n => String " "%char (spaces n)
  end.

(** The conversion ["%8" PRId64]: the decimal digits, with a sign when
    negative, after as many spaces as the width of 8 leaves. *)
Definition printf_8_PRId64 (x : Z) : string :=
  let digits := pretty x in
  spaces (8 - String.length digits) +:+ digits.

Definition newline : string := String "010"%char EmptyString.

(** [void libos_log_print(int level, const log_module_t *module,
                          const char *format, ...)]
    [out] is what the standard output holds and the result what it holds
    afterwards; [now] is the time [libos_time_get_now()] returned;
    [module] is [None] for [NULL]; [message] is the text that
    [vprintf(format, list)] writes. *)
Definition libos_log_print (now : Z) (out : string)
    (level : Z) (module : option log_module_t) (message : string) : string :=
  match module with
  | None => out
  | Some module =>
      if level >? module.(Log.level) then
        let now := libos_time_to_ms now in
        let name := err_to_name level in
        out +:+ (printf_8_PRId64 now +:+ " [" +:+ module.(Log.name) +:+ "] "
                   +:+ name +:+ ": ")
            +:+ message
            +:+ newline
      else out
  end.

(** [#define LIBOS_LOG_MODULE(log_name)
      LIBOS_LOG_MODULE_MIN_LEVEL(log_name, LIBOS_LOG_LEVEL_MIN)], with
    [#define LIBOS_LOG_MODULE_MIN_LEVEL(log_name, log_level)
      static log_module_t __TAG = { .level = log_level, .name = (#log_name) };]
    [LIBOS_LOG_LEVEL_MIN] is a setting of the build. *)
Definition LIBOS_LOG_MODULE_MIN_LEVEL (log_name : string) (log_level : Z)
  : log_module_t := {| level := log_level; name := log_name |}.




End Log.

Import Log.

(** ** Bit-level facts about the conversions *)

Section Conversions.

Lemma wrap_small (w x : Z) : in_range w x -> wrap w x = x.
Proof. intros [Hlo Hhi]. unfold wrap. apply Z.mod_small; lia. Qed.

Lemma wrap_in_range (w x : Z) : 0 <= w -> in_range w (wrap w x).
Proof.
  intros Hw. unfold in_range, wrap.
  apply Z.mod_pos_bound, Z.pow_pos_nonneg; lia.
Qed.

Lemma in_range_mono (w w' x : Z) : w <= w' -> in_range w x -> in_range w' x.
Proof.
  intros Hle [Hlo Hhi]. split; [assumption|].
  destruct (Z.lt_ge_cases w 0) as [Hneg|Hpos].
  - rewrite Z.pow_neg_r in Hhi by assumption. lia.
  - eapply Z.lt_le_trans; [exact Hhi|]. apply Z.pow_le_mono_r; lia.
Qed.

Lemma testbit_wrap (w x i : Z) :
  0 <= w -> Z.testbit (wrap w x) i = (i <? w) && Z.testbit x i.
Proof. intros Hw. unfold wrap. now apply Z.testbit_mod_pow2. Qed.

Lemma in_range_testbit_high (w x i : Z) :
  in_range w x -> w <= i -> Z.testbit x i = false.
Proof.
  intros [Hlo Hhi] Hi.
  destruct (Z.eq_dec x 0) as [->|Hx]; [apply Z.bits_0|].
  apply Z.bits_above_log2; [assumption|].
  assert (Hlog : Z.log2 x < w) by (apply Z.log2_lt_pow2; lia).
  lia.
Qed.

Lemma wrap_to_int (x : Z) : wrap 32 (to_int x) = wrap 32 x.
Proof.
  unfold wrap, to_int.
  rewrite Zminus_mod_idemp_l. f_equal. lia.
Qed.

Lemma testbit_to_int (x i : Z) :
  i < 32 -> Z.testbit (to_int x) i = Z.testbit x i.
Proof.
  intros Hi.
  assert (H : Z.testbit (wrap 32 (to_int x)) i = Z.testbit (wrap 32 x) i)
    by now rewrite wrap_to_int.
  rewrite !testbit_wrap in H by lia.
  apply Z.ltb_lt in Hi. now rewrite Hi in H.
Qed.

Lemma land_0xFF (x : Z) : Z.land x 0xFF = wrap 8 x.
Proof. change 0xFF with (Z.ones 8). now apply Z.land_ones. Qed.

Lemma land_0xFFFF (x : Z) : Z.land x 0xFFFF = wrap 16 x.
Proof. change 0xFFFF with (Z.ones 16). now apply Z.land_ones. Qed.

End Conversions.

(** Equality of two integers, bit by bit: the goal is reduced to the bits
    at an index [i], the index is placed among the given bounds, and the
    bits of each operation are computed. *)

Ltac ltb_decide :=
  repeat match goal with
    | |- context [?a <? ?b] =>
        first [ replace (a <? b) with true by (symmetry; apply Z.ltb_lt; lia)
              | replace (a <? b) with false by (symmetry; apply Z.ltb_ge; lia) ]
    end.

Ltac bit_step :=
  first [ rewrite Z.land_spec
        | rewrite Z.lor_spec
        | rewrite Z.lnot_spec by lia
        | rewrite testbit_wrap by lia
        | rewrite Z.shiftr_spec by lia
        | rewrite Z.shiftl_spec by lia
        | rewrite Z.testbit_neg_r by lia
        | rewrite Z.bits_0
        | match goal with
          | H : in_range ?w ?x |- context [Z.testbit ?x ?j] =>
              rewrite (in_range_testbit_high w x j H) by lia
          end ].

Ltac bits_at i :=
  unfold uint8_t, uint16_t, uint32_t;
  rewrite ?land_0xFF, ?land_0xFFFF;
  repeat bit_step; ltb_decide;
  rewrite ?andb_true_l, ?andb_true_r, ?andb_false_l, ?andb_false_r,
          ?orb_false_l, ?orb_false_r, ?orb_true_l, ?orb_true_r;
  try reflexivity;
  try (f_equal; lia).

Ltac bits_between i bounds :=
  lazymatch bounds with
  | nil => bits_at i
  | cons ?b ?bs =>
      destruct (Z.lt_ge_cases i b); [bits_at i | bits_between i bs]
  end.

Tactic Notation "bitwise_eq" "at" constr(bounds) :=
  apply Z.bits_inj'; let i := fresh "i" in let Hi := fresh "Hi" in
  intros i Hi; bits_between i bounds.

(** ** Bit-level facts about the macros *)

Section BitFacts.

Lemma be16_recompose (v : Z) :
  uint16_t
    (Z.lor (Z.shiftl (uint16_t (uint8_t (Z.land (Z.shiftr (uint16_t v) 8) 0xFF))) 8)
           (Z.shiftl (uint16_t (uint8_t (Z.land (Z.shiftr (uint16_t v) 0) 0xFF))) 0))
  = uint16_t v.
Proof. bitwise_eq at [8; 16]. Qed.

Lemma be32_recompose (v : Z) :
  uint32_t
    (Z.lor
       (Z.lor
          (Z.lor
             (uint32_t (Z.shiftl (uint32_t (uint8_t (Z.land (Z.shiftr (uint32_t v) 24) 0xFF))) 24))
             (uint32_t (Z.shiftl (uint32_t (uint8_t (Z.land (Z.shiftr (uint32_t v) 16) 0xFF))) 16)))
          (uint32_t (Z.shiftl (uint32_t (uint8_t (Z.land (Z.shiftr (uint32_t v) 8) 0xFF))) 8)))
       (uint32_t (Z.shiftl (uint32_t (uint8_t (Z.land (Z.shiftr (uint32_t v) 0) 0xFF))) 0)))
  = uint32_t v.
Proof. bitwise_eq at [8; 16; 24; 32]. Qed.

Lemma in_range_of_wrap (w x : Z) : 0 <= w -> wrap w x = x -> in_range w x.
Proof. intros Hw <-. now apply wrap_in_range. Qed.

Lemma wrap_land (w a b : Z) :
  0 <= w -> wrap w (Z.land a b) = Z.land (wrap w a) (wrap w b).
Proof.
  intros Hw. apply Z.bits_inj'; intros i Hi.
  repeat bit_step.
  destruct (i <? w), (Z.testbit a i), (Z.testbit b i); reflexivity.
Qed.

Lemma in_range_land (w a b : Z) : in_range w a -> in_range w (Z.land a b).
Proof.
  intros Ha. destruct (Z.lt_ge_cases w 0) as [Hneg|Hw].
  - destruct Ha as [Hlo Hhi]. rewrite Z.pow_neg_r in Hhi by assumption. lia.
  - apply in_range_of_wrap; [assumption|].
    apply Z.bits_inj'; intros i Hi.
    rewrite testbit_wrap, Z.land_spec by assumption.
    destruct (Z.ltb_spec i w) as [Hlt|Hge]; [reflexivity|].
    now rewrite (in_range_testbit_high w a i).
Qed.

Lemma land_pow2 (x n : Z) :
  0 <= n -> Z.land x (2 ^ n) = if Z.testbit x n then 2 ^ n else 0.
Proof.
  intros Hn. apply Z.bits_inj'; intros i Hi.
  rewrite Z.land_spec, Z.pow2_bits_eqb by assumption.
  destruct (Z.eqb_spec n i) as [->|Hne].
  - destruct (Z.testbit x i); simpl;
      [now rewrite Z.pow2_bits_true | now rewrite Z.bits_0].
  - rewrite andb_false_r.
    destruct (Z.testbit x n);
      [rewrite Z.pow2_bits_false by assumption | rewrite Z.bits_0]; reflexivity.
Qed.

Lemma c_eq_in_range (a b : Z) :
  in_range 32 a -> in_range 32 b -> c_eq a b = (a =? b).
Proof. intros Ha Hb. unfold c_eq. now rewrite !wrap_small. Qed.

Lemma wrap_shl_int_1 (pos : Z) :
  0 <= pos < 32 -> wrap 32 (shl_int 1 pos) = 2 ^ pos.
Proof.
  intros Hpos. unfold shl_int. rewrite wrap_to_int, Z.shiftl_1_l.
  apply wrap_small. split; [apply Z.pow_nonneg; lia|].
  apply Z.pow_lt_mono_r; lia.
Qed.

Lemma testbit_shl_int_1 (pos i : Z) :
  0 <= pos -> i < 32 -> Z.testbit (shl_int 1 pos) i = (pos =? i).
Proof.
  intros Hpos Hi. unfold shl_int.
  rewrite testbit_to_int, Z.shiftl_1_l by assumption.
  now apply Z.pow2_bits_eqb.
Qed.

(** On an in-range position [HAS_FLAG] reads the bit of that position. *)
Lemma HAS_FLAG_testbit (value pos : Z) :
  0 <= pos < 32 -> HAS_FLAG value pos = Z.testbit value pos.
Proof.
  intros Hpos. unfold HAS_FLAG, HAS_MASK, GET_MASK, c_ne, c_eq.
  rewrite wrap_land, !wrap_shl_int_1, land_pow2 by lia.
  rewrite testbit_wrap by lia.
  assert (Hpow : 0 < 2 ^ pos) by (apply Z.pow_pos_nonneg; lia).
  replace (pos <? 32) with true by (symmetry; apply Z.ltb_lt; lia).
  rewrite andb_true_l.
  change (wrap 32 0) with 0.
  replace (2 ^ pos =? 0) with false by (symmetry; apply Z.eqb_neq; lia).
  rewrite andb_true_r.
  destruct (Z.testbit value pos).
  - apply Z.eqb_refl.
  - apply Z.eqb_neq. lia.
Qed.

End BitFacts.

(** ** Closed forms of the buffer macros *)

Ltac insert_lookup :=
  repeat first
    [ rewrite list_lookup_insert_eq by (rewrite ?length_insert; lia)
    | rewrite list_lookup_insert_ne by lia ].

(** The bytes of a word at [off], one case for each, then the rest. *)
Ltac index_cases i off :=
  destruct (decide (i = off + 0)%nat) as [->|];
    [| destruct (decide (i = off + 1)%nat) as [->|];
       [| destruct (decide (i = off + 2)%nat) as [->|];
          [| destruct (decide (i = off + 3)%nat) as [->|]]]];
  insert_lookup; auto.

Section Buffers.

Implicit Types (data : list Z) (off i : nat) (v b : Z).

Lemma store_u8_Some data i b :
  (i < length data)%nat -> store_u8 data i b = Some (<[i := uint8_t b]> data).
Proof. intros Hi. unfold store_u8. now rewrite decide_True. Qed.

Lemma store_u8_None data i b :
  (length data <= i)%nat -> store_u8 data i b = None.
Proof. intros Hi. unfold store_u8. rewrite decide_False; [reflexivity | lia]. Qed.

Lemma lookup_in_buffer data i :
  (i < length data)%nat -> exists b, data !! i = Some b.
Proof. intros Hi. now apply lookup_lt_is_Some_2. Qed.

Lemma byte_buffer_lookup data i b :
  byte_buffer data -> data !! i = Some b -> uint8_t b = b.
Proof.
  intros Hbuf Hb. apply wrap_small.
  unfold byte_buffer in Hbuf. rewrite Forall_lookup in Hbuf. eauto.
Qed.

Lemma SET_16_IN_ARRAY_Some data v off :
  (off + 2 <= length data)%nat ->
  SET_16_IN_ARRAY data v off =
    Some (<[(off + 1)%nat := uint8_t (Z.land (Z.shiftr (uint16_t v) 0) 0xFF)]>
            (<[(off + 0)%nat := uint8_t (Z.land (Z.shiftr (uint16_t v) 8) 0xFF)]> data)).
Proof.
  intros Hoff. unfold SET_16_IN_ARRAY.
  rewrite store_u8_Some by lia. simpl.
  rewrite store_u8_Some by (rewrite length_insert; lia). reflexivity.
Qed.

Lemma SET_32_IN_ARRAY_Some data v off :
  (off + 4 <= length data)%nat ->
  SET_32_IN_ARRAY data v off =
    Some (<[(off + 3)%nat := uint8_t (Z.land (Z.shiftr (uint32_t v) 0) 0xFF)]>
            (<[(off + 2)%nat := uint8_t (Z.land (Z.shiftr (uint32_t v) 8) 0xFF)]>
               (<[(off + 1)%nat := uint8_t (Z.land (Z.shiftr (uint32_t v) 16) 0xFF)]>
                  (<[(off + 0)%nat := uint8_t (Z.land (Z.shiftr (uint32_t v) 24) 0xFF)]> data)))).
Proof.
  intros Hoff. unfold SET_32_IN_ARRAY.
  rewrite store_u8_Some by lia. simpl.
  rewrite store_u8_Some by (rewrite !length_insert; lia). simpl.
  rewrite store_u8_Some by (rewrite !length_insert; lia). simpl.
  rewrite store_u8_Some by (rewrite !length_insert; lia). reflexivity.
Qed.

Lemma REVERSE_BYTES_IN_ARRAY_16BIT_Some data off b0 b1 :
  data !! (off + 0)%nat = Some b0 -> data !! (off + 1)%nat = Some b1 ->
  REVERSE_BYTES_IN_ARRAY_16BIT data off =
    Some (<[(off + 1)%nat := uint8_t b0]> (<[(off + 0)%nat := uint8_t b1]> data)).
Proof.
  intros H0 H1. unfold REVERSE_BYTES_IN_ARRAY_16BIT, load_u8.
  apply lookup_lt_Some in H0 as Hl0. apply lookup_lt_Some in H1 as Hl1.
  rewrite H0. simpl. rewrite H1. simpl.
  rewrite store_u8_Some by lia. simpl.
  rewrite store_u8_Some by (rewrite length_insert; lia). reflexivity.
Qed.

Lemma REVERSE_BYTES_IN_ARRAY_32BIT_Some data off b0 b1 b2 b3 :
  data !! (off + 0)%nat = Some b0 -> data !! (off + 1)%nat = Some b1 ->
  data !! (off + 2)%nat = Some b2 -> data !! (off + 3)%nat = Some b3 ->
  REVERSE_BYTES_IN_ARRAY_32BIT data off =
    Some (<[(off + 2)%nat := uint8_t b1]>
            (<[(off + 1)%nat := uint8_t b2]>
               (<[(off + 3)%nat := uint8_t b0]>
                  (<[(off + 0)%nat := uint8_t b3]> data)))).
Proof.
  intros H0 H1 H2 H3. unfold REVERSE_BYTES_IN_ARRAY_32BIT, load_u8.
  apply lookup_lt_Some in H0 as Hl0. apply lookup_lt_Some in H3 as Hl3.
  rewrite H0. simpl. rewrite H3. simpl.
  rewrite store_u8_Some by lia. simpl.
  rewrite store_u8_Some by (rewrite length_insert; lia). simpl.
  insert_lookup. rewrite H1. simpl. rewrite H2. simpl.
  rewrite store_u8_Some by (rewrite !length_insert; lia). simpl.
  rewrite store_u8_Some by (rewrite !length_insert; lia). reflexivity.
Qed.

End Buffers.

(** ** Properties of the multi-byte combination *)

Section Combine.

(** C1. For byte inputs [high] and [low], [COMBINE_BYTES_16] with the
    most significant argument first returns [(high << 8) | low], a value
    of [uint16_t]; in particular [COMBINE_BYTES_16(0xAA, 0x55)] is
    [0xAA55]. *)
Theorem COMBINE_BYTES_16_big_endian (high low : Z) :
  in_range 8 high -> in_range 8 low ->
  COMBINE_BYTES_16 high low = Z.lor (Z.shiftl high 8) low
  /\ in_range 16 (COMBINE_BYTES_16 high low)
  /\ COMBINE_BYTES_16 0xAA 0x55 = 0xAA55.
Proof.
  intros Hhigh Hlow.
  assert (Heq : COMBINE_BYTES_16 high low = Z.lor (Z.shiftl high 8) low).
  { unfold COMBINE_BYTES_16, uint16_t.
    rewrite !wrap_small by (eapply in_range_mono; [|eassumption]; lia).
    apply Z.lor_comm. }
  split; [exact Heq|]. split; [|reflexivity].
  rewrite Heq. apply in_range_of_wrap; [lia|].
  bitwise_eq at [8; 16].
Qed.

Lemma COMBINE_BYTES_16_big_endian_witness :
  COMBINE_BYTES_16 0xBB 0xAA = Z.lor (Z.shiftl 0xBB 8) 0xAA
  /\ in_range 16 (COMBINE_BYTES_16 0xBB 0xAA)
  /\ COMBINE_BYTES_16 0xAA 0x55 = 0xAA55.
Proof.
  apply (COMBINE_BYTES_16_big_endian 0xBB 0xAA); unfold in_range; lia.
Defined.

(** C5, as the specification states it, fails: an argument above 255 is
    not reduced to its low 8 bits. *)
Lemma COMBINE_BYTES_no_8bit_truncation :
  COMBINE_BYTES_16 0x00 0x1FF
    <> COMBINE_BYTES_16 (Z.land 0x00 0xFF) (Z.land 0x1FF 0xFF)
  /\ COMBINE_BYTES_32 0x00 0x00 0x00 0x1FF
    <> COMBINE_BYTES_32 (Z.land 0x00 0xFF) (Z.land 0x00 0xFF)
                        (Z.land 0x00 0xFF) (Z.land 0x1FF 0xFF).
Proof. split; vm_compute; discriminate. Qed.

(** C5, amended. [COMBINE_BYTES_16] and [COMBINE_BYTES_32] convert each
    argument to [uint16_t] before the combination: for all inputs the
    result is that of the same call with every argument replaced by its
    value [& 0xFFFF]. *)
Theorem COMBINE_BYTES_16bit_truncation (a b c d : Z) :
  COMBINE_BYTES_16 a b
    = COMBINE_BYTES_16 (Z.land a 0xFFFF) (Z.land b 0xFFFF)
  /\ COMBINE_BYTES_32 a b c d
    = COMBINE_BYTES_32 (Z.land a 0xFFFF) (Z.land b 0xFFFF)
                       (Z.land c 0xFFFF) (Z.land d 0xFFFF).
Proof.
  assert (Hidem : forall x, uint16_t (Z.land x 0xFFFF) = uint16_t x).
  { intros x. rewrite land_0xFFFF. unfold uint16_t.
    apply wrap_small, wrap_in_range. lia. }
  unfold COMBINE_BYTES_32, COMBINE_BYTES_16.
  now rewrite !Hidem.
Qed.

End Combine.

(** ** Properties of the mask and flag macros *)

Section Masks.

(** C4. [HAS_MASK(value, 0)] is false for every value, and for a mask
    other than zero [HAS_MASK(value, mask)] is true exactly when
    [(value & mask) == mask]. *)
Theorem HAS_MASK_zero_and_nonzero (w value mask : Z) :
  w <= 32 -> in_range w value -> in_range w mask ->
  HAS_MASK value 0 = false
  /\ (mask <> 0 -> HAS_MASK value mask = (Z.land value mask =? mask)).
Proof.
  intros Hw Hvalue Hmask. split.
  - unfold HAS_MASK. apply andb_false_r.
  - intros Hnz. unfold HAS_MASK, GET_MASK, c_ne.
    assert (Hm32 : in_range 32 mask) by (now apply (in_range_mono w)).
    assert (Hv32 : in_range 32 value) by (now apply (in_range_mono w)).
    rewrite !c_eq_in_range;
      [| assumption | unfold in_range; lia | now apply in_range_land | assumption].
    replace (mask =? 0) with false by (symmetry; now apply Z.eqb_neq).
    apply andb_true_r.
Qed.

Lemma HAS_MASK_zero_and_nonzero_witness :
  HAS_MASK 0xBA 0 = false
  /\ (0x18 <> 0 -> HAS_MASK 0xBA 0x18 = (Z.land 0xBA 0x18 =? 0x18)).
Proof.
  apply (HAS_MASK_zero_and_nonzero 8 0xBA 0x18); unfold in_range; lia.
Defined.

(** C8. [ONLY_MASK(value, mask)] is true exactly when the set bits of
    [value] are those of [mask], that is when [value == mask]: it holds
    of [0] and [0], and fails for a superset such as [0b1110] against
    [0b1100] and for a subset. *)
Theorem ONLY_MASK_iff_equal (w value mask : Z) :
  w <= 32 -> in_range w value -> in_range w mask ->
  (ONLY_MASK value mask = true <-> value = mask)
  /\ ONLY_MASK 0 0 = true
  /\ ONLY_MASK 0xE 0xC = false
  /\ ONLY_MASK 0x4 0xC = false.
Proof.
  intros Hw Hvalue Hmask.
  split; [|repeat split; reflexivity].
  assert (Hm32 : in_range 32 mask) by (now apply (in_range_mono w)).
  assert (Hv32 : in_range 32 value) by (now apply (in_range_mono w)).
  unfold ONLY_MASK, GET_MASK.
  rewrite !c_eq_in_range by (assumption || now apply in_range_land).
  rewrite andb_true_iff, !Z.eqb_eq. split.
  - intros [H1 H2]. congruence.
  - intros ->. now rewrite Z.land_diag.
Qed.

Lemma ONLY_MASK_iff_equal_witness :
  (ONLY_MASK 0xC 0xC = true <-> 0xC = 0xC)
  /\ ONLY_MASK 0 0 = true
  /\ ONLY_MASK 0xE 0xC = false
  /\ ONLY_MASK 0x4 0xC = false.
Proof.
  apply (ONLY_MASK_iff_equal 8 0xC 0xC); unfold in_range; lia.
Defined.

(** C7. [SET_MASKED_VALUE(value, mask, new_value)] leaves
    [(value & ~mask) | (new_value & mask)] in [value]: a bit under the
    mask is the bit of [new_value], a bit outside the mask is the bit
    [value] had, and the bits of [new_value] outside the mask are
    dropped; in particular [SET_MASKED_VALUE(0x0F, 0b00001111,
    0b01100011)] leaves [0b00000011]. *)
Theorem SET_MASKED_VALUE_replaces_masked_bits (w value mask new_value : Z) :
  0 <= w -> in_range w value -> in_range w mask -> in_range w new_value ->
  SET_MASKED_VALUE w value mask new_value
    = Z.lor (Z.land value (Z.lnot mask)) (Z.land new_value mask)
  /\ (forall i, 0 <= i ->
        Z.testbit (SET_MASKED_VALUE w value mask new_value) i
          = if Z.testbit mask i then Z.testbit new_value i
            else Z.testbit value i)
  /\ SET_MASKED_VALUE 8 0x0F 0x0F 0x63 = 0x03.
Proof.
  intros Hw Hvalue Hmask Hnew.
  assert (Heq : SET_MASKED_VALUE w value mask new_value
                = Z.lor (Z.land value (Z.lnot mask)) (Z.land new_value mask)).
  { unfold SET_MASKED_VALUE. bitwise_eq at [w]. }
  split; [exact Heq|]. split; [|reflexivity].
  intros i Hi. rewrite Heq.
  rewrite Z.lor_spec, !Z.land_spec, Z.lnot_spec by assumption.
  destruct (Z.testbit mask i), (Z.testbit value i), (Z.testbit new_value i);
    reflexivity.
Qed.

Lemma SET_MASKED_VALUE_replaces_masked_bits_witness :
  SET_MASKED_VALUE 8 0x00 0x0F 0x63
    = Z.lor (Z.land 0x00 (Z.lnot 0x0F)) (Z.land 0x63 0x0F)
  /\ (forall i, 0 <= i ->
        Z.testbit (SET_MASKED_VALUE 8 0x00 0x0F 0x63) i
          = if Z.testbit 0x0F i then Z.testbit 0x63 i else Z.testbit 0x00 i)
  /\ SET_MASKED_VALUE 8 0x0F 0x0F 0x63 = 0x03.
Proof.
  apply (SET_MASKED_VALUE_replaces_masked_bits 8 0x00 0x0F 0x63);
    unfold in_range; lia.
Defined.

(** C9. For a flag position below the bit width of the value,
    [HAS_FLAG(value, pos)] is true right after [SET_FLAG(value, pos)]
    and false right after [CLEAR_FLAG(value, pos)]. *)
Theorem HAS_FLAG_after_SET_FLAG_and_CLEAR_FLAG (w value pos : Z) :
  w <= 32 -> in_range w value -> 0 <= pos < w ->
  HAS_FLAG (SET_FLAG w value pos) pos = true
  /\ HAS_FLAG (CLEAR_FLAG w value pos) pos = false.
Proof.
  intros Hw Hvalue Hpos.
  rewrite !HAS_FLAG_testbit by lia.
  unfold SET_FLAG, SET_MASK, CLEAR_FLAG, CLEAR_MASK.
  rewrite !testbit_wrap by lia.
  rewrite Z.lor_spec, !Z.land_spec, Z.lnot_spec by lia.
  rewrite testbit_shl_int_1, Z.eqb_refl by lia.
  split.
  - rewrite orb_true_r, andb_true_r. apply Z.ltb_lt. lia.
  - simpl. now rewrite !andb_false_r.
Qed.

Lemma HAS_FLAG_after_SET_FLAG_and_CLEAR_FLAG_witness :
  HAS_FLAG (SET_FLAG 8 0x38 1) 1 = true
  /\ HAS_FLAG (CLEAR_FLAG 8 0x38 1) 1 = false.
Proof.
  apply (HAS_FLAG_after_SET_FLAG_and_CLEAR_FLAG 8 0x38 1);
    unfold in_range; lia.
Defined.

End Masks.

(** ** Properties of the array codec *)

Section ArrayCodec.

Implicit Types (data : list Z) (off : nat) (v : Z).

(** C2. Reading with [GET_16_IN_ARRAY] at the offset where
    [SET_16_IN_ARRAY] wrote a 16-bit value returns that value, for every
    buffer and every offset with [offset + 2 <= length]; the same holds
    of [GET_32_IN_ARRAY] after [SET_32_IN_ARRAY] for a 32-bit value and
    [offset + 4 <= length]. *)
Theorem GET_after_SET_roundtrip data off :
  (forall v, in_range 16 v -> (off + 2 <= length data)%nat ->
     exists data', SET_16_IN_ARRAY data v off = Some data'
                   /\ GET_16_IN_ARRAY data' off = Some v)
  /\ (forall v, in_range 32 v -> (off + 4 <= length data)%nat ->
     exists data', SET_32_IN_ARRAY data v off = Some data'
                   /\ GET_32_IN_ARRAY data' off = Some v).
Proof.
  split; intros v Hv Hoff.
  - eexists. split; [now apply SET_16_IN_ARRAY_Some|].
    unfold GET_16_IN_ARRAY, load_u8. insert_lookup. simpl.
    rewrite be16_recompose. f_equal. now apply wrap_small.
  - eexists. split; [now apply SET_32_IN_ARRAY_Some|].
    unfold GET_32_IN_ARRAY, load_u8. insert_lookup. simpl.
    rewrite be32_recompose. f_equal. now apply wrap_small.
Qed.

Lemma GET_after_SET_roundtrip_witness :
  (exists data', SET_16_IN_ARRAY [0xAA; 0xBB; 0xCC; 0xDD] 0x1234 1 = Some data'
                 /\ GET_16_IN_ARRAY data' 1 = Some 0x1234)
  /\ (exists data',
        SET_32_IN_ARRAY [0xAA; 0xBB; 0xCC; 0xDD; 0xEE; 0xFF; 0x11; 0x22]
                        0x12345678 3 = Some data'
        /\ GET_32_IN_ARRAY data' 3 = Some 0x12345678).
Proof.
  split.
  - apply (proj1 (GET_after_SET_roundtrip [0xAA; 0xBB; 0xCC; 0xDD] 1));
      [unfold in_range; lia | simpl; lia].
  - apply (proj2 (GET_after_SET_roundtrip
                    [0xAA; 0xBB; 0xCC; 0xDD; 0xEE; 0xFF; 0x11; 0x22] 3));
      [unfold in_range; lia | simpl; lia].
Defined.

(** C3. [SET_16_IN_ARRAY] stores the most significant byte at the lowest
    offset: after it the byte at [offset] is [(v >> 8) & 0xFF] and the
    byte at [offset + 1] is [v & 0xFF], whatever the byte order of the
    host; writing [0x1234] at offset 0 of a buffer of 2 bytes gives
    [[0x12, 0x34]]. *)
Theorem SET_16_IN_ARRAY_msb_first data v off :
  in_range 16 v -> (off + 2 <= length data)%nat ->
  (exists data', SET_16_IN_ARRAY data v off = Some data'
     /\ data' !! off = Some (Z.land (Z.shiftr v 8) 0xFF)
     /\ data' !! (off + 1)%nat = Some (Z.land v 0xFF))
  /\ (forall b0 b1, SET_16_IN_ARRAY [b0; b1] 0x1234 0 = Some [0x12; 0x34]).
Proof.
  intros Hv Hoff. split; [|reflexivity].
  eexists. split; [now apply SET_16_IN_ARRAY_Some|].
  rewrite Nat.add_0_r. insert_lookup. unfold uint16_t. rewrite (wrap_small 16 v) by assumption.
  rewrite Z.shiftr_0_r, !land_0xFF. unfold uint8_t.
  split; f_equal; apply wrap_small, wrap_in_range; lia.
Qed.

Lemma SET_16_IN_ARRAY_msb_first_witness :
  (exists data', SET_16_IN_ARRAY [0x11; 0x22; 0x33; 0x44] 0xBBAA 1 = Some data'
     /\ data' !! 1%nat = Some (Z.land (Z.shiftr 0xBBAA 8) 0xFF)
     /\ data' !! (1 + 1)%nat = Some (Z.land 0xBBAA 0xFF))
  /\ (forall b0 b1, SET_16_IN_ARRAY [b0; b1] 0x1234 0 = Some [0x12; 0x34]).
Proof.
  apply (SET_16_IN_ARRAY_msb_first [0x11; 0x22; 0x33; 0x44] 0xBBAA 1);
    [unfold in_range; lia | simpl; lia].
Defined.

(** C6. Applied twice at the same offset, [REVERSE_BYTES_IN_ARRAY_16BIT]
    gives back the buffer it started from, and so does
    [REVERSE_BYTES_IN_ARRAY_32BIT]. *)
Theorem REVERSE_BYTES_IN_ARRAY_involution data off :
  byte_buffer data ->
  ((off + 2 <= length data)%nat ->
     exists data', REVERSE_BYTES_IN_ARRAY_16BIT data off = Some data'
                   /\ REVERSE_BYTES_IN_ARRAY_16BIT data' off = Some data)
  /\ ((off + 4 <= length data)%nat ->
     exists data', REVERSE_BYTES_IN_ARRAY_32BIT data off = Some data'
                   /\ REVERSE_BYTES_IN_ARRAY_32BIT data' off = Some data).
Proof.
  intros Hbuf. split; intros Hoff.
  - destruct (lookup_in_buffer data (off + 0)) as [b0 H0]; [lia|].
    destruct (lookup_in_buffer data (off + 1)) as [b1 H1]; [lia|].
    pose proof (byte_buffer_lookup _ _ _ Hbuf H0) as E0.
    pose proof (byte_buffer_lookup _ _ _ Hbuf H1) as E1.
    eexists. split; [apply REVERSE_BYTES_IN_ARRAY_16BIT_Some; eassumption|].
    rewrite E0, E1.
    rewrite (REVERSE_BYTES_IN_ARRAY_16BIT_Some _ off b1 b0)
      by (insert_lookup; reflexivity).
    rewrite E0, E1. f_equal.
    apply list_eq. intros i. index_cases i off.
  - destruct (lookup_in_buffer data (off + 0)) as [b0 H0]; [lia|].
    destruct (lookup_in_buffer data (off + 1)) as [b1 H1]; [lia|].
    destruct (lookup_in_buffer data (off + 2)) as [b2 H2]; [lia|].
    destruct (lookup_in_buffer data (off + 3)) as [b3 H3]; [lia|].
    pose proof (byte_buffer_lookup _ _ _ Hbuf H0) as E0.
    pose proof (byte_buffer_lookup _ _ _ Hbuf H1) as E1.
    pose proof (byte_buffer_lookup _ _ _ Hbuf H2) as E2.
    pose proof (byte_buffer_lookup _ _ _ Hbuf H3) as E3.
    eexists. split; [apply REVERSE_BYTES_IN_ARRAY_32BIT_Some; eassumption|].
    rewrite E0, E1, E2, E3.
    rewrite (REVERSE_BYTES_IN_ARRAY_32BIT_Some _ off b3 b2 b1 b0)
      by (insert_lookup; reflexivity).
    rewrite E0, E1, E2, E3. f_equal.
    apply list_eq. intros i. index_cases i off.
Qed.

Lemma REVERSE_BYTES_IN_ARRAY_involution_witness :
  (exists data',
      REVERSE_BYTES_IN_ARRAY_16BIT [0x11; 0x22; 0x33; 0x44; 0x55] 1 = Some data'
      /\ REVERSE_BYTES_IN_ARRAY_16BIT data' 1 = Some [0x11; 0x22; 0x33; 0x44; 0x55])
  /\ (exists data',
      REVERSE_BYTES_IN_ARRAY_32BIT [0x11; 0x22; 0x33; 0x44; 0x55] 1 = Some data'
      /\ REVERSE_BYTES_IN_ARRAY_32BIT data' 1 = Some [0x11; 0x22; 0x33; 0x44; 0x55]).
Proof.
  assert (Hbuf : byte_buffer [0x11; 0x22; 0x33; 0x44; 0x55])
    by (unfold byte_buffer; repeat constructor; vm_compute; discriminate).
  pose proof (REVERSE_BYTES_IN_ARRAY_involution
                [0x11; 0x22; 0x33; 0x44; 0x55] 1 Hbuf) as [H16 H32].
  split; [apply H16 | apply H32]; simpl; lia.
Defined.

(** C10. [SET_16_IN_ARRAY] changes only the 2 bytes at [offset] and
    [offset + 1], [SET_32_IN_ARRAY] only the 4 bytes from [offset] to
    [offset + 3], and each reversal macro only the bytes of its own
    word: every other byte of the buffer, and its length, stay as they
    were. *)
Theorem array_macros_frame data v off :
  ((off + 2 <= length data)%nat ->
     exists data', SET_16_IN_ARRAY data v off = Some data'
                   /\ same_outside off 2 data data')
  /\ ((off + 4 <= length data)%nat ->
     exists data', SET_32_IN_ARRAY data v off = Some data'
                   /\ same_outside off 4 data data')
  /\ ((off + 2 <= length data)%nat ->
     exists data', REVERSE_BYTES_IN_ARRAY_16BIT data off = Some data'
                   /\ same_outside off 2 data data')
  /\ ((off + 4 <= length data)%nat ->
     exists data', REVERSE_BYTES_IN_ARRAY_32BIT data off = Some data'
                   /\ same_outside off 4 data data').
Proof.
  repeat split; intros Hoff.
  - eexists. split; [now apply SET_16_IN_ARRAY_Some|].
    split; [now rewrite !length_insert | intros i Hi; now insert_lookup].
  - eexists. split; [now apply SET_32_IN_ARRAY_Some|].
    split; [now rewrite !length_insert | intros i Hi; now insert_lookup].
  - destruct (lookup_in_buffer data (off + 0)) as [b0 H0]; [lia|].
    destruct (lookup_in_buffer data (off + 1)) as [b1 H1]; [lia|].
    eexists. split; [apply REVERSE_BYTES_IN_ARRAY_16BIT_Some; eassumption|].
    split; [now rewrite !length_insert | intros i Hi; now insert_lookup].
  - destruct (lookup_in_buffer data (off + 0)) as [b0 H0]; [lia|].
    destruct (lookup_in_buffer data (off + 1)) as [b1 H1]; [lia|].
    destruct (lookup_in_buffer data (off + 2)) as [b2 H2]; [lia|].
    destruct (lookup_in_buffer data (off + 3)) as [b3 H3]; [lia|].
    eexists. split; [apply REVERSE_BYTES_IN_ARRAY_32BIT_Some; eassumption|].
    split; [now rewrite !length_insert | intros i Hi; now insert_lookup].
Qed.

Lemma array_macros_frame_witness :
  (exists data', SET_16_IN_ARRAY [0x11; 0x22; 0x33; 0x44] 0xBBAA 0 = Some data'
                 /\ same_outside 0 2 [0x11; 0x22; 0x33; 0x44] data')
  /\ (exists data', SET_32_IN_ARRAY [0x11; 0x22; 0x33; 0x44; 0x55] 0xBBAA 1 = Some data'
                 /\ same_outside 1 4 [0x11; 0x22; 0x33; 0x44; 0x55] data')
  /\ (exists data', REVERSE_BYTES_IN_ARRAY_16BIT [0x11; 0x22; 0x33; 0x44] 2 = Some data'
                 /\ same_outside 2 2 [0x11; 0x22; 0x33; 0x44] data')
  /\ (exists data', REVERSE_BYTES_IN_ARRAY_32BIT [0x11; 0x22; 0x33; 0x44] 0 = Some data'
                 /\ same_outside 0 4 [0x11; 0x22; 0x33; 0x44] data').
Proof.
  split; [|split; [|split]].
  - apply (proj1 (array_macros_frame [0x11; 0x22; 0x33; 0x44] 0xBBAA 0)).
    simpl; lia.
  - apply (proj1 (proj2 (array_macros_frame [0x11; 0x22; 0x33; 0x44; 0x55] 0xBBAA 1))).
    simpl; lia.
  - apply (proj1 (proj2 (proj2 (array_macros_frame [0x11; 0x22; 0x33; 0x44] 0 2)))).
    simpl; lia.
  - apply (proj2 (proj2 (proj2 (array_macros_frame [0x11; 0x22; 0x33; 0x44] 0 0)))).
    simpl; lia.
Defined.

End ArrayCodec.

(** ** Test vectors of tests/bits.c *)

Section TestVectors.

Example test_HAS_MASK_specificValueNotFullyMatched : HAS_MASK 0xAA 0x18 = false.
Proof. reflexivity. Qed.

Example test_HAS_MASK_specificValueFulMatch : HAS_MASK 0xBA 0x18 = true.
Proof. reflexivity. Qed.

Example test_HAS_MASK_zeroMask : HAS_MASK 0xAA 0x00 = false.
Proof. reflexivity. Qed.

Example test_ONLY_MASK_bitsInMaskAndBelowMaskInValue : ONLY_MASK 0x0C 0x0D = false.
Proof. reflexivity. Qed.

Example test_ONLY_MASK_bitsInMaskAndAboveMaskInValue : ONLY_MASK 0x1C 0x0C = false.
Proof. reflexivity. Qed.

Example test_HAS_FLAG_hasValueWithFlag :
  HAS_FLAG 0xAA 1 = true /\ HAS_FLAG 0xAA 2 = false /\ HAS_FLAG 0xAA 0 = false.
Proof. repeat split; reflexivity. Qed.

Example test_SET_MASK_setValueWithAlreadySet : SET_MASK 8 0x81 0x3C = 0xBD.
Proof. reflexivity. Qed.

Example test_SET_FLAG_setValueWithAlreadySet : SET_FLAG 8 0x38 1 = 0x3A.
Proof. reflexivity. Qed.

Example test_SET_FLAG_sign_bit :
  SET_FLAG 32 0 31 = 0x80000000 /\ CLEAR_FLAG 32 0xFFFFFFFF 31 = 0x7FFFFFFF.
Proof. split; reflexivity. Qed.

Example test_SET_MASKED_VALUE_setValueOnZeroWithValueOutsideOfMask :
  SET_MASKED_VALUE 8 0x00 0x0F 0x63 = 0x03.
Proof. reflexivity. Qed.

(** [bits_COMBINE_BYTES_16.simpleData] and [bits_COMBINE_BYTES_32.simpleData]
    were written for the earlier parameter order, least significant byte
    first: their expected values are those of the macros with the
    arguments in the opposite order. *)
Example test_COMBINE_BYTES_simpleData :
  COMBINE_BYTES_16 0x55 0xAA = 0x55AA
  /\ COMBINE_BYTES_32 0xFF 0x11 0x55 0xAA = 0xFF1155AA.
Proof. split; reflexivity. Qed.

Example test_SET_16_IN_ARRAY_simpleDataInMiddle :
  SET_16_IN_ARRAY [0x11; 0x22; 0x33; 0x44] (COMBINE_BYTES_16 0xBB 0xAA) 1
  = Some [0x11; 0xBB; 0xAA; 0x44].
Proof. reflexivity. Qed.

Example test_SET_16_IN_ARRAY_past_the_end :
  SET_16_IN_ARRAY [0x11; 0x22; 0x33; 0x44] 0xBBAA 3 = None.
Proof. reflexivity. Qed.

Example test_SET_32_IN_ARRAY_simpleDataAtEnd :
  SET_32_IN_ARRAY [0x11; 0x22; 0x33; 0x44; 0x55; 0x66; 0x77; 0x88]
                  (COMBINE_BYTES_32 0xBB 0xAA 0xCC 0xEE) 4
  = Some [0x11; 0x22; 0x33; 0x44; 0xBB; 0xAA; 0xCC; 0xEE].
Proof. reflexivity. Qed.

Example test_SET_32_IN_ARRAY_largerDataThan32 :
  SET_32_IN_ARRAY [0x11; 0x22; 0x33; 0x44; 0x55; 0x66; 0x77; 0x88]
                  (Z.lor (COMBINE_BYTES_32 0xBB 0xDD 0xCC 0xAA) (Z.shiftl 0xFF 32)) 2
  = Some [0x11; 0x22; 0xBB; 0xDD; 0xCC; 0xAA; 0x77; 0x88].
Proof. reflexivity. Qed.

Example test_GET_32_IN_ARRAY_simpleData :
  (SET_32_IN_ARRAY [0xAA; 0xBB; 0xCC; 0xDD; 0xEE; 0xFF; 0x11; 0x22] 0x12345678 3
     ≫= λ data, GET_32_IN_ARRAY data 3) = Some 0x12345678.
Proof. reflexivity. Qed.

Example test_REVERSE_BYTES_IN_ARRAY :
  REVERSE_BYTES_IN_ARRAY_16BIT [0x11; 0x22; 0x33; 0x44] 1
    = Some [0x11; 0x33; 0x22; 0x44]
  /\ REVERSE_BYTES_IN_ARRAY_32BIT [0x11; 0x22; 0x33; 0x44; 0x55] 1
    = Some [0x11; 0x55; 0x44; 0x33; 0x22].
Proof. split; reflexivity. Qed.

End TestVectors.


(** * Further properties of the code *)

(** Like [bitwise_eq], closing each case as a Boolean tautology over the
    bits of the operands. *)
Ltac testbit_step :=
  match goal with
  | |- context [Z.testbit (Z.land _ _) _] => rewrite Z.land_spec
  | |- context [Z.testbit (Z.lor _ _) _] => rewrite Z.lor_spec
  | |- context [Z.testbit (Z.lnot ?a) ?j] => rewrite (Z.lnot_spec a j) by lia
  | |- context [Z.testbit (wrap ?w ?a) ?j] => rewrite (testbit_wrap w a j) by lia
  | |- context [Z.testbit (Z.shiftr ?a ?n) ?j] =>
      rewrite (Z.shiftr_spec a n j) by lia
  | |- context [Z.testbit (Z.shiftl ?a ?n) ?j] =>
      rewrite (Z.shiftl_spec a n j) by lia
  | |- context [Z.testbit ?x ?j] => rewrite (Z.testbit_neg_r x j) by lia
  | |- context [Z.testbit 0 ?j] => rewrite (Z.bits_0 j)
  | H : in_range ?w ?x |- context [Z.testbit ?x ?j] =>
      rewrite (in_range_testbit_high w x j H) by lia
  end.

Ltac testbit_index :=
  repeat match goal with
    | |- context [Z.testbit ?x ?j] => progress (ring_simplify j)
    end.

Ltac bits_taut_at i :=
  unfold uint8_t, uint16_t, uint32_t;
  rewrite ?land_0xFF, ?land_0xFFFF;
  repeat testbit_step; ltb_decide;
  rewrite ?andb_true_l, ?andb_true_r, ?andb_false_l, ?andb_false_r,
          ?orb_false_l, ?orb_false_r, ?orb_true_l, ?orb_true_r;
  testbit_index;
  try reflexivity;
  try btauto.

Ltac bits_taut_between i bounds :=
  lazymatch bounds with
  | nil => bits_taut_at i
  | cons ?b ?bs =>
      destruct (Z.lt_ge_cases i b); [bits_taut_at i | bits_taut_between i bs]
  end.

Tactic Notation "bitwise_taut" "at" constr(bounds) :=
  apply Z.bits_inj'; let i := fresh "i" in let Hi := fresh "Hi" in
  intros i Hi; bits_taut_between i bounds.

Section MaskFacts.

Lemma HAS_MASK_in_range (value mask : Z) :
  in_range 32 value -> in_range 32 mask ->
  HAS_MASK value mask = (Z.land value mask =? mask) && negb (mask =? 0).
Proof.
  intros Hv Hm. unfold HAS_MASK, GET_MASK, c_ne.
  rewrite !c_eq_in_range;
    [reflexivity | assumption | unfold in_range; lia
    | now apply in_range_land | assumption].
Qed.

Lemma land_eq_iff_bits (v m : Z) :
  Z.land v m = m
  <-> forall i, 0 <= i -> Z.testbit m i = true -> Z.testbit v i = true.
Proof.
  split.
  - intros Heq i Hi Hm. rewrite <- Heq, Z.land_spec in Hm.
    now apply andb_true_iff in Hm.
  - intros Hbits. apply Z.bits_inj'; intros i Hi. rewrite Z.land_spec.
    destruct (Z.testbit m i) eqn:Hm; [|apply andb_false_r].
    now rewrite (Hbits i Hi Hm).
Qed.

Lemma in_range_lor (w a b : Z) :
  0 <= w -> in_range w a -> in_range w b -> in_range w (Z.lor a b).
Proof.
  intros Hw Ha Hb. apply in_range_of_wrap; [assumption|].
  bitwise_eq at [w].
Qed.

Lemma SET_MASK_lor (w value mask : Z) :
  0 <= w -> in_range w value -> in_range w mask ->
  SET_MASK w value mask = Z.lor value mask.
Proof.
  intros Hw Hv Hm. unfold SET_MASK. bitwise_taut at [w].
Qed.

Lemma CLEAR_MASK_ldiff (w value mask : Z) :
  0 <= w -> in_range w value ->
  CLEAR_MASK w value mask = Z.land value (Z.lnot mask).
Proof.
  intros Hw Hv. unfold CLEAR_MASK. bitwise_taut at [w].
Qed.

End MaskFacts.

(** ** Masks and flags *)

Section MaskProperties.

(** X1. [HAS_MASK(value, mask)] is true exactly when the mask is not zero
    and every bit set in the mask is set in the value. *)
Theorem HAS_MASK_iff_all_bits (w value mask : Z) :
  w <= 32 -> in_range w value -> in_range w mask ->
  (HAS_MASK value mask = true
   <-> mask <> 0
       /\ forall i, 0 <= i -> Z.testbit mask i = true -> Z.testbit value i = true).
Proof.
  intros Hw Hv Hm.
  rewrite HAS_MASK_in_range by (now apply (in_range_mono w)).
  rewrite andb_true_iff, negb_true_iff, Z.eqb_eq, Z.eqb_neq, land_eq_iff_bits.
  tauto.
Qed.

Lemma HAS_MASK_iff_all_bits_witness :
  HAS_MASK 0xBA 0x18 = true
  <-> 0x18 <> 0
      /\ forall i, 0 <= i -> Z.testbit 0x18 i = true -> Z.testbit 0xBA i = true.
Proof.
  apply (HAS_MASK_iff_all_bits 8 0xBA 0x18); unfold in_range; lia.
Defined.

(** X2. For two masks other than zero, the value has their union exactly
    when it has both. *)
Theorem HAS_MASK_union (w value mask1 mask2 : Z) :
  0 <= w <= 32 -> in_range w value -> in_range w mask1 -> in_range w mask2 ->
  mask1 <> 0 -> mask2 <> 0 ->
  HAS_MASK value (Z.lor mask1 mask2) = HAS_MASK value mask1 && HAS_MASK value mask2.
Proof.
  intros Hw Hv H1 H2 Hn1 Hn2.
  assert (H12 : in_range w (Z.lor mask1 mask2)) by (apply in_range_lor; tauto || lia).
  assert (Hn12 : Z.lor mask1 mask2 <> 0) by (rewrite Z.lor_eq_0_iff; tauto).
  rewrite !HAS_MASK_in_range by (apply (in_range_mono w); tauto || lia).
  apply Z.eqb_neq in Hn1, Hn2, Hn12. rewrite Hn1, Hn2, Hn12. simpl.
  rewrite !andb_true_r.
  apply eq_true_iff_eq.
  rewrite andb_true_iff, !Z.eqb_eq, !land_eq_iff_bits.
  split.
  - intros Hall. split; intros i Hi Hbit; apply Hall; try assumption;
      rewrite Z.lor_spec, Hbit; [reflexivity | apply orb_true_r].
  - intros [Ha Hb] i Hi Hbit. rewrite Z.lor_spec in Hbit.
    apply orb_true_iff in Hbit as [Hbit|Hbit]; auto.
Qed.

Lemma HAS_MASK_union_witness :
  HAS_MASK 0xBA (Z.lor 0x08 0x10) = HAS_MASK 0xBA 0x08 && HAS_MASK 0xBA 0x10.
Proof.
  apply (HAS_MASK_union 8 0xBA 0x08 0x10); unfold in_range; lia.
Defined.

(** X3. [SET_MASK] leaves [value | mask]: the result stays in the width,
    reads back the whole mask through [GET_MASK], and has the mask
    according to [HAS_MASK] unless the mask is zero. *)
Theorem SET_MASK_then_HAS_MASK (w value mask : Z) :
  0 <= w <= 32 -> in_range w value -> in_range w mask ->
  SET_MASK w value mask = Z.lor value mask
  /\ in_range w (SET_MASK w value mask)
  /\ GET_MASK (SET_MASK w value mask) mask = mask
  /\ (mask <> 0 -> HAS_MASK (SET_MASK w value mask) mask = true).
Proof.
  intros Hw Hv Hm.
  assert (Hin : in_range w (Z.lor value mask)) by (apply in_range_lor; tauto || lia).
  assert (Hget : Z.land (Z.lor value mask) mask = mask).
  { apply land_eq_iff_bits. intros i Hi Hbit.
    rewrite Z.lor_spec, Hbit. apply orb_true_r. }
  rewrite SET_MASK_lor by (tauto || lia). unfold GET_MASK.
  repeat split; try assumption; try apply Hin.
  intros Hnz.
  rewrite HAS_MASK_in_range by (apply (in_range_mono w); tauto || lia).
  rewrite Hget, Z.eqb_refl. apply Z.eqb_neq in Hnz. now rewrite Hnz.
Qed.

Lemma SET_MASK_then_HAS_MASK_witness :
  SET_MASK 8 0x81 0x3C = Z.lor 0x81 0x3C
  /\ in_range 8 (SET_MASK 8 0x81 0x3C)
  /\ GET_MASK (SET_MASK 8 0x81 0x3C) 0x3C = 0x3C
  /\ (0x3C <> 0 -> HAS_MASK (SET_MASK 8 0x81 0x3C) 0x3C = true).
Proof.
  apply (SET_MASK_then_HAS_MASK 8 0x81 0x3C); unfold in_range; lia.
Defined.

(** X4. After [CLEAR_MASK] no bit of the mask is left in the value, so
    [GET_MASK] reads zero and [HAS_MASK] is false, and every bit outside
    the mask is the bit the value had. *)
Theorem CLEAR_MASK_then_HAS_MASK (w value mask : Z) :
  0 <= w <= 32 -> in_range w value -> in_range w mask ->
  in_range w (CLEAR_MASK w value mask)
  /\ GET_MASK (CLEAR_MASK w value mask) mask = 0
  /\ HAS_MASK (CLEAR_MASK w value mask) mask = false
  /\ (forall i, 0 <= i -> Z.testbit mask i = false ->
        Z.testbit (CLEAR_MASK w value mask) i = Z.testbit value i).
Proof.
  intros Hw Hv Hm.
  assert (Hin : in_range w (CLEAR_MASK w value mask))
    by (apply wrap_in_range; lia).
  assert (Hget : Z.land (CLEAR_MASK w value mask) mask = 0).
  { rewrite CLEAR_MASK_ldiff by (tauto || lia).
    apply Z.bits_inj'; intros i Hi.
    rewrite !Z.land_spec, Z.lnot_spec, Z.bits_0 by assumption.
    destruct (Z.testbit value i), (Z.testbit mask i); reflexivity. }
  split; [exact Hin|]. split; [exact Hget|]. split.
  - rewrite HAS_MASK_in_range by (apply (in_range_mono w); tauto || lia).
    rewrite Hget. destruct (Z.eqb_spec 0 mask) as [<-|Hne]; [reflexivity|].
    reflexivity.
  - intros i Hi Hbit. rewrite CLEAR_MASK_ldiff by (tauto || lia).
    rewrite Z.land_spec, Z.lnot_spec, Hbit by assumption. apply andb_true_r.
Qed.

Lemma CLEAR_MASK_then_HAS_MASK_witness :
  in_range 8 (CLEAR_MASK 8 0xBD 0x3C)
  /\ GET_MASK (CLEAR_MASK 8 0xBD 0x3C) 0x3C = 0
  /\ HAS_MASK (CLEAR_MASK 8 0xBD 0x3C) 0x3C = false
  /\ (forall i, 0 <= i -> Z.testbit 0x3C i = false ->
        Z.testbit (CLEAR_MASK 8 0xBD 0x3C) i = Z.testbit 0xBD i).
Proof.
  apply (CLEAR_MASK_then_HAS_MASK 8 0xBD 0x3C); unfold in_range; lia.
Defined.

End MaskProperties.

Section FlagProperties.

(** X5. Of [SET_MASK] and [CLEAR_MASK] with one mask the last one
    decides: clearing after setting is clearing, setting after clearing
    is setting, and each of them done twice is as done once. *)
Theorem SET_MASK_CLEAR_MASK_last_wins (w value mask : Z) :
  0 <= w -> in_range w value -> in_range w mask ->
  CLEAR_MASK w (SET_MASK w value mask) mask = CLEAR_MASK w value mask
  /\ SET_MASK w (CLEAR_MASK w value mask) mask = SET_MASK w value mask
  /\ SET_MASK w (SET_MASK w value mask) mask = SET_MASK w value mask
  /\ CLEAR_MASK w (CLEAR_MASK w value mask) mask = CLEAR_MASK w value mask.
Proof.
  intros Hw Hv Hm. unfold SET_MASK, CLEAR_MASK.
  repeat split; bitwise_taut at [w].
Qed.

Lemma SET_MASK_CLEAR_MASK_last_wins_witness :
  CLEAR_MASK 8 (SET_MASK 8 0x81 0x3C) 0x3C = CLEAR_MASK 8 0x81 0x3C
  /\ SET_MASK 8 (CLEAR_MASK 8 0x81 0x3C) 0x3C = SET_MASK 8 0x81 0x3C
  /\ SET_MASK 8 (SET_MASK 8 0x81 0x3C) 0x3C = SET_MASK 8 0x81 0x3C
  /\ CLEAR_MASK 8 (CLEAR_MASK 8 0x81 0x3C) 0x3C = CLEAR_MASK 8 0x81 0x3C.
Proof.
  apply (SET_MASK_CLEAR_MASK_last_wins 8 0x81 0x3C); unfold in_range; lia.
Defined.

(** X6. For a position below the width, [ONLY_FLAG(value, pos)] is true
    exactly when the value is the single bit [2 ^ pos]. *)
Theorem ONLY_FLAG_iff_single_bit (w value pos : Z) :
  w <= 32 -> in_range w value -> 0 <= pos < w ->
  (ONLY_FLAG value pos = true <-> value = 2 ^ pos).
Proof.
  intros Hw Hv Hpos. unfold ONLY_FLAG.
  rewrite HAS_FLAG_testbit by lia. unfold c_eq.
  rewrite wrap_land, wrap_shl_int_1, land_pow2 by lia.
  rewrite (wrap_small 32 value) by (now apply (in_range_mono w)).
  destruct (Z.testbit value pos) eqn:Hbit; simpl.
  - rewrite Z.eqb_eq. split; intros H; now symmetry.
  - split; [discriminate|]. intros ->.
    rewrite Z.pow2_bits_true in Hbit by lia. discriminate.
Qed.

Lemma ONLY_FLAG_iff_single_bit_witness :
  ONLY_FLAG 0x02 1 = true <-> 0x02 = 2 ^ 1.
Proof.
  apply (ONLY_FLAG_iff_single_bit 8 0x02 1); unfold in_range; lia.
Defined.

(** X7. [SET_FLAG] and [CLEAR_FLAG] at one position keep the value in its
    width and leave the flag of every other position as [HAS_FLAG] read
    it before. *)
Theorem SET_FLAG_CLEAR_FLAG_other_flags (w value pos other : Z) :
  w <= 32 -> in_range w value -> 0 <= pos < w -> 0 <= other < 32 ->
  other <> pos ->
  in_range w (SET_FLAG w value pos)
  /\ in_range w (CLEAR_FLAG w value pos)
  /\ HAS_FLAG (SET_FLAG w value pos) other = HAS_FLAG value other
  /\ HAS_FLAG (CLEAR_FLAG w value pos) other = HAS_FLAG value other.
Proof.
  intros Hw Hv Hpos Hother Hne.
  split; [apply wrap_in_range; lia|]. split; [apply wrap_in_range; lia|].
  rewrite !HAS_FLAG_testbit by lia.
  unfold SET_FLAG, SET_MASK, CLEAR_FLAG, CLEAR_MASK.
  rewrite !testbit_wrap by lia.
  rewrite Z.lor_spec, !Z.land_spec, Z.lnot_spec by lia.
  rewrite testbit_shl_int_1 by lia.
  replace (pos =? other) with false by (symmetry; apply Z.eqb_neq; lia).
  simpl. rewrite orb_false_r, andb_true_r.
  destruct (Z.ltb_spec other w) as [Hlt|Hge]; [split; reflexivity|].
  rewrite (in_range_testbit_high w value other) by assumption.
  split; reflexivity.
Qed.

Lemma SET_FLAG_CLEAR_FLAG_other_flags_witness :
  in_range 8 (SET_FLAG 8 0x38 1)
  /\ in_range 8 (CLEAR_FLAG 8 0x38 1)
  /\ HAS_FLAG (SET_FLAG 8 0x38 1) 3 = HAS_FLAG 0x38 3
  /\ HAS_FLAG (CLEAR_FLAG 8 0x38 1) 3 = HAS_FLAG 0x38 3.
Proof.
  apply (SET_FLAG_CLEAR_FLAG_other_flags 8 0x38 1 3); unfold in_range; lia.
Defined.

(** X8. The field that [SET_MASKED_VALUE] wrote under a mask is what
    [GET_MASK] reads back under that mask, and of two writes under one
    mask only the second shows. *)
Theorem SET_MASKED_VALUE_read_back (w value mask first second : Z) :
  0 <= w -> in_range w value -> in_range w mask ->
  in_range w first -> in_range w second ->
  GET_MASK (SET_MASKED_VALUE w value mask second) mask = GET_MASK second mask
  /\ SET_MASKED_VALUE w (SET_MASKED_VALUE w value mask first) mask second
     = SET_MASKED_VALUE w value mask second.
Proof.
  intros Hw Hv Hm Hf Hs. unfold GET_MASK, SET_MASKED_VALUE.
  split; bitwise_taut at [w].
Qed.

Lemma SET_MASKED_VALUE_read_back_witness :
  GET_MASK (SET_MASKED_VALUE 8 0xF0 0x0F 0x63) 0x0F = GET_MASK 0x63 0x0F
  /\ SET_MASKED_VALUE 8 (SET_MASKED_VALUE 8 0xF0 0x0F 0x05) 0x0F 0x63
     = SET_MASKED_VALUE 8 0xF0 0x0F 0x63.
Proof.
  apply (SET_MASKED_VALUE_read_back 8 0xF0 0x0F 0x05 0x63); unfold in_range; lia.
Defined.

End FlagProperties.

(** ** Nibbles *)

Section NibbleFacts.

Lemma land_0xF (x : Z) : Z.land x 0xF = wrap 4 x.
Proof. change 0xF with (Z.ones 4). now apply Z.land_ones. Qed.

Lemma land_0xF0 (x : Z) : Z.land x 0xF0 = Z.shiftl (wrap 4 (Z.shiftr x 4)) 4.
Proof.
  change 0xF0 with (Z.shiftl (Z.ones 4) 4).
  apply Z.bits_inj'; intros i Hi.
  rewrite Z.land_spec, !Z.shiftl_spec by assumption.
  destruct (Z.lt_ge_cases i 4).
  - now rewrite !(Z.testbit_neg_r _ (i - 4)), andb_false_r by lia.
  - rewrite testbit_wrap, Z.testbit_ones_nonneg, Z.shiftr_spec by lia.
    replace (i - 4 + 4) with i by lia.
    destruct (Z.testbit x i), (i - 4 <? 4); reflexivity.
Qed.

End NibbleFacts.

Ltac nibble_bits_at i :=
  unfold GET_LOWER_NIBBLE, GET_UPPER_NIBBLE, SET_LOWER_NIBBLE, SET_UPPER_NIBBLE;
  unfold uint8_t;
  rewrite ?land_0xF, ?land_0xF0, ?land_0xFF;
  repeat first
    [ bit_step
    | match goal with
      | |- context [Z.testbit ?x ?j] => rewrite (Z.testbit_neg_r x j) by lia
      end ];
  ltb_decide;
  rewrite ?andb_true_l, ?andb_true_r, ?andb_false_l, ?andb_false_r,
          ?orb_false_l, ?orb_false_r, ?orb_true_l, ?orb_true_r;
  repeat match goal with
    | |- context [Z.testbit ?x ?j] =>
        progress (ring_simplify j)
    end;
  try reflexivity;
  try btauto.

Ltac nibble_bits_between i bounds :=
  lazymatch bounds with
  | nil => nibble_bits_at i
  | cons ?b ?bs =>
      destruct (Z.lt_ge_cases i b); [nibble_bits_at i | nibble_bits_between i bs]
  end.

Tactic Notation "nibble_eq" "at" constr(bounds) :=
  apply Z.bits_inj'; let i := fresh "i" in let Hi := fresh "Hi" in
  intros i Hi; nibble_bits_between i bounds.

Section NibbleProperties.

(** X9. In a value of at least 8 bits, the nibble that a setter wrote is
    the low nibble of its argument when read back, and the other nibble
    is the one the value had. *)
Theorem nibble_set_then_get (w value nibble : Z) :
  8 <= w ->
  GET_LOWER_NIBBLE (SET_LOWER_NIBBLE w value nibble) = GET_LOWER_NIBBLE nibble
  /\ GET_UPPER_NIBBLE (SET_LOWER_NIBBLE w value nibble) = GET_UPPER_NIBBLE value
  /\ GET_UPPER_NIBBLE (SET_UPPER_NIBBLE w value nibble) = GET_LOWER_NIBBLE nibble
  /\ GET_LOWER_NIBBLE (SET_UPPER_NIBBLE w value nibble) = GET_LOWER_NIBBLE value.
Proof.
  intros Hw. repeat split; nibble_eq at [4; 8].
Qed.

Lemma nibble_set_then_get_witness :
  GET_LOWER_NIBBLE (SET_LOWER_NIBBLE 8 0x5A 0xFF) = GET_LOWER_NIBBLE 0xFF
  /\ GET_UPPER_NIBBLE (SET_LOWER_NIBBLE 8 0x5A 0xFF) = GET_UPPER_NIBBLE 0x5A
  /\ GET_UPPER_NIBBLE (SET_UPPER_NIBBLE 8 0x5A 0xFF) = GET_LOWER_NIBBLE 0xFF
  /\ GET_LOWER_NIBBLE (SET_UPPER_NIBBLE 8 0x5A 0xFF) = GET_LOWER_NIBBLE 0x5A.
Proof. apply (nibble_set_then_get 8 0x5A 0xFF); lia. Defined.

(** X10. A byte is its upper nibble shifted over its lower nibble, both
    nibbles are below 16, and writing back the nibble that was read
    leaves the byte as it was. *)
Theorem nibble_decomposition (w value : Z) :
  8 <= w -> in_range 8 value ->
  value = Z.lor (Z.shiftl (GET_UPPER_NIBBLE value) 4) (GET_LOWER_NIBBLE value)
  /\ in_range 4 (GET_UPPER_NIBBLE value)
  /\ in_range 4 (GET_LOWER_NIBBLE value)
  /\ SET_LOWER_NIBBLE w value (GET_LOWER_NIBBLE value) = value
  /\ SET_UPPER_NIBBLE w value (GET_UPPER_NIBBLE value) = value.
Proof.
  intros Hw Hv. split; [|split; [|split; [|split]]].
  - nibble_eq at [4; 8].
  - unfold GET_UPPER_NIBBLE. rewrite land_0xF. apply wrap_in_range. lia.
  - unfold GET_LOWER_NIBBLE. rewrite land_0xF. apply wrap_in_range. lia.
  - nibble_eq at [4; 8].
  - nibble_eq at [4; 8].
Qed.

Lemma nibble_decomposition_witness :
  0x5A = Z.lor (Z.shiftl (GET_UPPER_NIBBLE 0x5A) 4) (GET_LOWER_NIBBLE 0x5A)
  /\ in_range 4 (GET_UPPER_NIBBLE 0x5A)
  /\ in_range 4 (GET_LOWER_NIBBLE 0x5A)
  /\ SET_LOWER_NIBBLE 8 0x5A (GET_LOWER_NIBBLE 0x5A) = 0x5A
  /\ SET_UPPER_NIBBLE 8 0x5A (GET_UPPER_NIBBLE 0x5A) = 0x5A.
Proof.
  apply (nibble_decomposition 8 0x5A); [lia | unfold in_range; lia].
Defined.

(** X11. The nibble macros work on the low byte only: in a value wider
    than 8 bits both setters clear every bit above bit 7, their result is
    that for the low byte of the value, and [GET_UPPER_NIBBLE] reads bits
    4 to 7 whatever lies above them. *)
Theorem nibble_macros_drop_upper_bits (w value nibble : Z) :
  8 <= w ->
  in_range 8 (SET_LOWER_NIBBLE w value nibble)
  /\ in_range 8 (SET_UPPER_NIBBLE w value nibble)
  /\ SET_LOWER_NIBBLE w value nibble = SET_LOWER_NIBBLE w (Z.land value 0xFF) nibble
  /\ SET_UPPER_NIBBLE w value nibble = SET_UPPER_NIBBLE w (Z.land value 0xFF) nibble
  /\ GET_UPPER_NIBBLE value = GET_UPPER_NIBBLE (Z.land value 0xFF).
Proof.
  intros Hw. split; [|split; [|split; [|split]]].
  - apply in_range_of_wrap; [lia|]. nibble_eq at [4; 8; w].
  - apply in_range_of_wrap; [lia|]. nibble_eq at [4; 8; w].
  - nibble_eq at [4; 8; w].
  - nibble_eq at [4; 8; w].
  - nibble_eq at [4; 8].
Qed.

Lemma nibble_macros_drop_upper_bits_witness :
  in_range 8 (SET_LOWER_NIBBLE 16 0x125A 0x0F)
  /\ in_range 8 (SET_UPPER_NIBBLE 16 0x125A 0x0F)
  /\ SET_LOWER_NIBBLE 16 0x125A 0x0F = SET_LOWER_NIBBLE 16 (Z.land 0x125A 0xFF) 0x0F
  /\ SET_UPPER_NIBBLE 16 0x125A 0x0F = SET_UPPER_NIBBLE 16 (Z.land 0x125A 0xFF) 0x0F
  /\ GET_UPPER_NIBBLE 0x125A = GET_UPPER_NIBBLE (Z.land 0x125A 0xFF).
Proof. apply (nibble_macros_drop_upper_bits 16 0x125A 0x0F); lia. Defined.

End NibbleProperties.

(** ** Multi-byte combination and the array codec *)

Ltac bound_cases Hd :=
  unfold store_u8, load_u8 in Hd;
  repeat (simplify_option_eq; rewrite ?length_insert in * );
  repeat match goal with
    | H : ?l !! ?i = Some _ |- _ => apply lookup_lt_Some in H
    end;
  rewrite ?length_insert in *.

Section ArrayFacts.

Implicit Types (data : list Z) (off : nat) (v : Z).

Lemma GET_16_IN_ARRAY_Some data off b0 b1 :
  data !! (off + 0)%nat = Some b0 -> data !! (off + 1)%nat = Some b1 ->
  GET_16_IN_ARRAY data off
  = Some (uint16_t (Z.lor (Z.shiftl (uint16_t b0) 8) (Z.shiftl (uint16_t b1) 0))).
Proof.
  intros H0 H1. unfold GET_16_IN_ARRAY, load_u8. now rewrite H0, H1.
Qed.

Lemma GET_32_IN_ARRAY_Some data off b0 b1 b2 b3 :
  data !! (off + 0)%nat = Some b0 -> data !! (off + 1)%nat = Some b1 ->
  data !! (off + 2)%nat = Some b2 -> data !! (off + 3)%nat = Some b3 ->
  GET_32_IN_ARRAY data off
  = Some (uint32_t
            (Z.lor (Z.lor (Z.lor (uint32_t (Z.shiftl (uint32_t b0) 24))
                                 (uint32_t (Z.shiftl (uint32_t b1) 16)))
                          (uint32_t (Z.shiftl (uint32_t b2) 8)))
                   (uint32_t (Z.shiftl (uint32_t b3) 0)))).
Proof.
  intros H0 H1 H2 H3. unfold GET_32_IN_ARRAY, load_u8.
  now rewrite H0, H1, H2, H3.
Qed.

Lemma SET_16_IN_ARRAY_is_Some data v off :
  is_Some (SET_16_IN_ARRAY data v off) <-> (off + 2 <= length data)%nat.
Proof.
  split.
  - intros [d Hd]. unfold SET_16_IN_ARRAY in Hd. bound_cases Hd. lia.
  - intros Hoff. rewrite SET_16_IN_ARRAY_Some by assumption. eauto.
Qed.

Lemma SET_32_IN_ARRAY_is_Some data v off :
  is_Some (SET_32_IN_ARRAY data v off) <-> (off + 4 <= length data)%nat.
Proof.
  split.
  - intros [d Hd]. unfold SET_32_IN_ARRAY in Hd. bound_cases Hd. lia.
  - intros Hoff. rewrite SET_32_IN_ARRAY_Some by assumption. eauto.
Qed.

Lemma GET_16_IN_ARRAY_is_Some data off :
  is_Some (GET_16_IN_ARRAY data off) <-> (off + 2 <= length data)%nat.
Proof.
  split.
  - intros [d Hd]. unfold GET_16_IN_ARRAY in Hd. bound_cases Hd. lia.
  - intros Hoff.
    destruct (lookup_in_buffer data (off + 0)) as [b0 H0]; [lia|].
    destruct (lookup_in_buffer data (off + 1)) as [b1 H1]; [lia|].
    rewrite (GET_16_IN_ARRAY_Some _ _ _ _ H0 H1). eauto.
Qed.

Lemma GET_32_IN_ARRAY_is_Some data off :
  is_Some (GET_32_IN_ARRAY data off) <-> (off + 4 <= length data)%nat.
Proof.
  split.
  - intros [d Hd]. unfold GET_32_IN_ARRAY in Hd. bound_cases Hd. lia.
  - intros Hoff.
    destruct (lookup_in_buffer data (off + 0)) as [b0 H0]; [lia|].
    destruct (lookup_in_buffer data (off + 1)) as [b1 H1]; [lia|].
    destruct (lookup_in_buffer data (off + 2)) as [b2 H2]; [lia|].
    destruct (lookup_in_buffer data (off + 3)) as [b3 H3]; [lia|].
    rewrite (GET_32_IN_ARRAY_Some _ _ _ _ _ _ H0 H1 H2 H3). eauto.
Qed.



End ArrayFacts.

Section CombineProperties.

Implicit Types (data : list Z) (off : nat) (v b : Z).

(** X12. For byte arguments [COMBINE_BYTES_32] is the 32-bit value with the
    first argument in bits 24 to 31 and the last in bits 0 to 7; it is
    [COMBINE_BYTES_16] of the first two bytes, shifted by 16, over that of
    the last two. *)
Theorem COMBINE_BYTES_32_big_endian (b3 b2 b1 b0 : Z) :
  in_range 8 b3 -> in_range 8 b2 -> in_range 8 b1 -> in_range 8 b0 ->
  COMBINE_BYTES_32 b3 b2 b1 b0
    = Z.lor (Z.lor (Z.lor (Z.shiftl b3 24) (Z.shiftl b2 16)) (Z.shiftl b1 8)) b0
  /\ COMBINE_BYTES_32 b3 b2 b1 b0
    = Z.lor (Z.shiftl (COMBINE_BYTES_16 b3 b2) 16) (COMBINE_BYTES_16 b1 b0)
  /\ in_range 32 (COMBINE_BYTES_32 b3 b2 b1 b0).
Proof.
  intros H3 H2 H1 H0.
  assert (Heq : COMBINE_BYTES_32 b3 b2 b1 b0
    = Z.lor (Z.lor (Z.lor (Z.shiftl b3 24) (Z.shiftl b2 16)) (Z.shiftl b1 8)) b0).
  { unfold COMBINE_BYTES_32, COMBINE_BYTES_16.
    bitwise_taut at [8; 16; 24; 32]. }
  split; [exact Heq|]. split.
  - unfold COMBINE_BYTES_32, COMBINE_BYTES_16.
    bitwise_taut at [8; 16; 24; 32].
  - rewrite Heq. apply in_range_of_wrap; [lia|].
    bitwise_taut at [8; 16; 24; 32].
Qed.

Lemma COMBINE_BYTES_32_big_endian_witness :
  COMBINE_BYTES_32 0xBB 0xAA 0xCC 0xEE
    = Z.lor (Z.lor (Z.lor (Z.shiftl 0xBB 24) (Z.shiftl 0xAA 16)) (Z.shiftl 0xCC 8)) 0xEE
  /\ COMBINE_BYTES_32 0xBB 0xAA 0xCC 0xEE
    = Z.lor (Z.shiftl (COMBINE_BYTES_16 0xBB 0xAA) 16) (COMBINE_BYTES_16 0xCC 0xEE)
  /\ in_range 32 (COMBINE_BYTES_32 0xBB 0xAA 0xCC 0xEE).
Proof.
  apply (COMBINE_BYTES_32_big_endian 0xBB 0xAA 0xCC 0xEE); unfold in_range; lia.
Defined.

(** X13. Writing [COMBINE_BYTES_16] or [COMBINE_BYTES_32] of bytes into a
    buffer puts those bytes there in the order of the arguments, the first
    at the offset. *)
Theorem SET_IN_ARRAY_of_COMBINE_BYTES data off (b3 b2 b1 b0 : Z) :
  in_range 8 b3 -> in_range 8 b2 -> in_range 8 b1 -> in_range 8 b0 ->
  ((off + 2 <= length data)%nat ->
     exists data', SET_16_IN_ARRAY data (COMBINE_BYTES_16 b1 b0) off = Some data'
       /\ data' !! off = Some b1 /\ data' !! (off + 1)%nat = Some b0)
  /\ ((off + 4 <= length data)%nat ->
     exists data',
       SET_32_IN_ARRAY data (COMBINE_BYTES_32 b3 b2 b1 b0) off = Some data'
       /\ data' !! off = Some b3 /\ data' !! (off + 1)%nat = Some b2
       /\ data' !! (off + 2)%nat = Some b1 /\ data' !! (off + 3)%nat = Some b0).
Proof.
  intros H3 H2 H1 H0. split; intros Hoff.
  - eexists. split; [now apply SET_16_IN_ARRAY_Some|].
    rewrite Nat.add_0_r. insert_lookup.
    split; f_equal; unfold COMBINE_BYTES_16; bitwise_taut at [8; 16].
  - eexists. split; [now apply SET_32_IN_ARRAY_Some|].
    rewrite Nat.add_0_r. insert_lookup.
    repeat split; f_equal; unfold COMBINE_BYTES_32, COMBINE_BYTES_16;
      bitwise_taut at [8; 16; 24; 32].
Qed.

Lemma SET_IN_ARRAY_of_COMBINE_BYTES_witness :
  (exists data',
      SET_16_IN_ARRAY [0x11; 0x22; 0x33; 0x44] (COMBINE_BYTES_16 0xBB 0xAA) 2
        = Some data'
      /\ data' !! 2%nat = Some 0xBB /\ data' !! (2 + 1)%nat = Some 0xAA)
  /\ (exists data',
      SET_32_IN_ARRAY [0x11; 0x22; 0x33; 0x44]
                      (COMBINE_BYTES_32 0xDD 0xCC 0xBB 0xAA) 0 = Some data'
      /\ data' !! 0%nat = Some 0xDD /\ data' !! (0 + 1)%nat = Some 0xCC
      /\ data' !! (0 + 2)%nat = Some 0xBB /\ data' !! (0 + 3)%nat = Some 0xAA).
Proof.
  split.
  - apply (proj1 (SET_IN_ARRAY_of_COMBINE_BYTES
                    [0x11; 0x22; 0x33; 0x44] 2 0xDD 0xCC 0xBB 0xAA
                    ltac:(unfold in_range; lia) ltac:(unfold in_range; lia)
                    ltac:(unfold in_range; lia) ltac:(unfold in_range; lia))).
    simpl; lia.
  - apply (proj2 (SET_IN_ARRAY_of_COMBINE_BYTES
                    [0x11; 0x22; 0x33; 0x44] 0 0xDD 0xCC 0xBB 0xAA
                    ltac:(unfold in_range; lia) ltac:(unfold in_range; lia)
                    ltac:(unfold in_range; lia) ltac:(unfold in_range; lia))).
    simpl; lia.
Defined.

(** X14. On a buffer of bytes [GET_16_IN_ARRAY] is [COMBINE_BYTES_16] of
    the two bytes at the offset and [GET_32_IN_ARRAY] is
    [COMBINE_BYTES_32] of the four, first byte most significant. *)
Theorem GET_IN_ARRAY_is_COMBINE_BYTES data off :
  byte_buffer data ->
  ((off + 2 <= length data)%nat ->
     exists b1 b0, data !! off = Some b1 /\ data !! (off + 1)%nat = Some b0
       /\ GET_16_IN_ARRAY data off = Some (COMBINE_BYTES_16 b1 b0))
  /\ ((off + 4 <= length data)%nat ->
     exists b3 b2 b1 b0,
       data !! off = Some b3 /\ data !! (off + 1)%nat = Some b2
       /\ data !! (off + 2)%nat = Some b1 /\ data !! (off + 3)%nat = Some b0
       /\ GET_32_IN_ARRAY data off = Some (COMBINE_BYTES_32 b3 b2 b1 b0)).
Proof.
  intros Hbuf. unfold byte_buffer in Hbuf. rewrite Forall_lookup in Hbuf.
  split; intros Hoff.
  - destruct (lookup_in_buffer data (off + 0)) as [b1 H1]; [lia|].
    destruct (lookup_in_buffer data (off + 1)) as [b0 H0]; [lia|].
    pose proof (Hbuf _ _ H1) as R1. pose proof (Hbuf _ _ H0) as R0.
    exists b1, b0. rewrite (GET_16_IN_ARRAY_Some _ _ _ _ H1 H0).
    rewrite Nat.add_0_r in H1. repeat split; try assumption.
    f_equal. unfold COMBINE_BYTES_16. bitwise_taut at [8; 16].
  - destruct (lookup_in_buffer data (off + 0)) as [b3 H3]; [lia|].
    destruct (lookup_in_buffer data (off + 1)) as [b2 H2]; [lia|].
    destruct (lookup_in_buffer data (off + 2)) as [b1 H1]; [lia|].
    destruct (lookup_in_buffer data (off + 3)) as [b0 H0]; [lia|].
    pose proof (Hbuf _ _ H3) as R3. pose proof (Hbuf _ _ H2) as R2.
    pose proof (Hbuf _ _ H1) as R1. pose proof (Hbuf _ _ H0) as R0.
    exists b3, b2, b1, b0.
    rewrite (GET_32_IN_ARRAY_Some _ _ _ _ _ _ H3 H2 H1 H0).
    rewrite Nat.add_0_r in H3. repeat split; try assumption.
    f_equal. unfold COMBINE_BYTES_32, COMBINE_BYTES_16.
    bitwise_taut at [8; 16; 24; 32].
Qed.

Lemma GET_IN_ARRAY_is_COMBINE_BYTES_witness :
  (exists b1 b0, [0x11; 0x22; 0x33; 0x44] !! 1%nat = Some b1
     /\ [0x11; 0x22; 0x33; 0x44] !! (1 + 1)%nat = Some b0
     /\ GET_16_IN_ARRAY [0x11; 0x22; 0x33; 0x44] 1 = Some (COMBINE_BYTES_16 b1 b0))
  /\ (exists b3 b2 b1 b0,
     [0x11; 0x22; 0x33; 0x44] !! 0%nat = Some b3
     /\ [0x11; 0x22; 0x33; 0x44] !! (0 + 1)%nat = Some b2
     /\ [0x11; 0x22; 0x33; 0x44] !! (0 + 2)%nat = Some b1
     /\ [0x11; 0x22; 0x33; 0x44] !! (0 + 3)%nat = Some b0
     /\ GET_32_IN_ARRAY [0x11; 0x22; 0x33; 0x44] 0
        = Some (COMBINE_BYTES_32 b3 b2 b1 b0)).
Proof.
  assert (Hbuf : byte_buffer [0x11; 0x22; 0x33; 0x44])
    by (unfold byte_buffer; repeat constructor; vm_compute; discriminate).
  split.
  - apply (proj1 (GET_IN_ARRAY_is_COMBINE_BYTES [0x11; 0x22; 0x33; 0x44] 1 Hbuf)).
    simpl; lia.
  - apply (proj2 (GET_IN_ARRAY_is_COMBINE_BYTES [0x11; 0x22; 0x33; 0x44] 0 Hbuf)).
    simpl; lia.
Defined.

End CombineProperties.

Section ArrayProperties.

Implicit Types (data : list Z) (off : nat) (v b : Z).

(** X15. On a buffer of bytes, writing back the value that
    [GET_16_IN_ARRAY] or [GET_32_IN_ARRAY] read at an offset leaves the
    buffer as it was. *)
Theorem SET_after_GET_unchanged data off v :
  byte_buffer data ->
  (GET_16_IN_ARRAY data off = Some v -> SET_16_IN_ARRAY data v off = Some data)
  /\ (GET_32_IN_ARRAY data off = Some v -> SET_32_IN_ARRAY data v off = Some data).
Proof.
  intros Hbuf. pose proof Hbuf as Hall.
  unfold byte_buffer in Hall. rewrite Forall_lookup in Hall.
  split; intros Hget.
  - assert (Hoff : (off + 2 <= length data)%nat)
      by (apply GET_16_IN_ARRAY_is_Some; eauto).
    destruct (lookup_in_buffer data (off + 0)) as [b1 H1]; [lia|].
    destruct (lookup_in_buffer data (off + 1)) as [b0 H0]; [lia|].
    pose proof (Hall _ _ H1) as R1. pose proof (Hall _ _ H0) as R0.
    rewrite (GET_16_IN_ARRAY_Some _ _ _ _ H1 H0) in Hget.
    injection Hget as <-.
    rewrite SET_16_IN_ARRAY_Some by assumption. f_equal.
    apply list_eq. intros i. index_cases i off.
    + rewrite H1. f_equal. bitwise_taut at [8; 16].
    + rewrite H0. f_equal. bitwise_taut at [8; 16].
  - assert (Hoff : (off + 4 <= length data)%nat)
      by (apply GET_32_IN_ARRAY_is_Some; eauto).
    destruct (lookup_in_buffer data (off + 0)) as [b3 H3]; [lia|].
    destruct (lookup_in_buffer data (off + 1)) as [b2 H2]; [lia|].
    destruct (lookup_in_buffer data (off + 2)) as [b1 H1]; [lia|].
    destruct (lookup_in_buffer data (off + 3)) as [b0 H0]; [lia|].
    pose proof (Hall _ _ H3) as R3. pose proof (Hall _ _ H2) as R2.
    pose proof (Hall _ _ H1) as R1. pose proof (Hall _ _ H0) as R0.
    rewrite (GET_32_IN_ARRAY_Some _ _ _ _ _ _ H3 H2 H1 H0) in Hget.
    injection Hget as <-.
    rewrite SET_32_IN_ARRAY_Some by assumption. f_equal.
    apply list_eq. intros i. index_cases i off.
    + rewrite H3. f_equal. bitwise_taut at [8; 16; 24; 32].
    + rewrite H2. f_equal. bitwise_taut at [8; 16; 24; 32].
    + rewrite H1. f_equal. bitwise_taut at [8; 16; 24; 32].
    + rewrite H0. f_equal. bitwise_taut at [8; 16; 24; 32].
Qed.

Lemma SET_after_GET_unchanged_witness :
  SET_16_IN_ARRAY [0x11; 0x22; 0x33; 0x44] 0x2233 1 = Some [0x11; 0x22; 0x33; 0x44]
  /\ SET_32_IN_ARRAY [0x11; 0x22; 0x33; 0x44] 0x11223344 0
     = Some [0x11; 0x22; 0x33; 0x44].
Proof.
  assert (Hbuf : byte_buffer [0x11; 0x22; 0x33; 0x44])
    by (unfold byte_buffer; repeat constructor; vm_compute; discriminate).
  split.
  - apply (proj1 (SET_after_GET_unchanged [0x11; 0x22; 0x33; 0x44] 1 0x2233 Hbuf)).
    reflexivity.
  - apply (proj2 (SET_after_GET_unchanged [0x11; 0x22; 0x33; 0x44] 0 0x11223344 Hbuf)).
    reflexivity.
Defined.

(** X16. A value wider than the word is cut to the word before it is
    stored: [SET_16_IN_ARRAY] stores the low 16 bits of its value and
    [SET_32_IN_ARRAY] the low 32, and that is what the matching read
    returns. *)
Theorem SET_IN_ARRAY_truncates data off v :
  SET_16_IN_ARRAY data v off = SET_16_IN_ARRAY data (Z.land v 0xFFFF) off
  /\ SET_32_IN_ARRAY data v off = SET_32_IN_ARRAY data (Z.land v 0xFFFFFFFF) off
  /\ ((off + 2 <= length data)%nat ->
        SET_16_IN_ARRAY data v off ≫= (λ data', GET_16_IN_ARRAY data' off)
        = Some (Z.land v 0xFFFF))
  /\ ((off + 4 <= length data)%nat ->
        SET_32_IN_ARRAY data v off ≫= (λ data', GET_32_IN_ARRAY data' off)
        = Some (Z.land v 0xFFFFFFFF)).
Proof.
  assert (H16 : uint16_t (Z.land v 0xFFFF) = uint16_t v).
  { rewrite land_0xFFFF. apply wrap_small, wrap_in_range. lia. }
  assert (E32 : Z.land v 0xFFFFFFFF = uint32_t v).
  { change 0xFFFFFFFF with (Z.ones 32). now apply Z.land_ones. }
  assert (H32 : uint32_t (Z.land v 0xFFFFFFFF) = uint32_t v).
  { rewrite E32. apply wrap_small, wrap_in_range. lia. }
  split; [|split; [|split]].
  - unfold SET_16_IN_ARRAY. now rewrite H16.
  - unfold SET_32_IN_ARRAY. now rewrite H32.
  - intros Hoff. rewrite SET_16_IN_ARRAY_Some by assumption. simpl.
    unfold GET_16_IN_ARRAY, load_u8. insert_lookup. simpl.
    now rewrite be16_recompose, land_0xFFFF.
  - intros Hoff. rewrite SET_32_IN_ARRAY_Some by assumption. simpl.
    unfold GET_32_IN_ARRAY, load_u8. insert_lookup. simpl.
    now rewrite be32_recompose, E32.
Qed.

Lemma SET_IN_ARRAY_truncates_witness :
  SET_16_IN_ARRAY [0x11; 0x22; 0x33; 0x44] 0xBBDDCCAA 1
    = SET_16_IN_ARRAY [0x11; 0x22; 0x33; 0x44] (Z.land 0xBBDDCCAA 0xFFFF) 1
  /\ SET_32_IN_ARRAY [0x11; 0x22; 0x33; 0x44] 0xFFBBDDCCAA 0
    = SET_32_IN_ARRAY [0x11; 0x22; 0x33; 0x44] (Z.land 0xFFBBDDCCAA 0xFFFFFFFF) 0
  /\ SET_16_IN_ARRAY [0x11; 0x22; 0x33; 0x44] 0xBBDDCCAA 1
       ≫= (λ data', GET_16_IN_ARRAY data' 1)
     = Some (Z.land 0xBBDDCCAA 0xFFFF)
  /\ SET_32_IN_ARRAY [0x11; 0x22; 0x33; 0x44] 0xFFBBDDCCAA 0
       ≫= (λ data', GET_32_IN_ARRAY data' 0)
     = Some (Z.land 0xFFBBDDCCAA 0xFFFFFFFF).
Proof.
  pose proof (SET_IN_ARRAY_truncates [0x11; 0x22; 0x33; 0x44] 1 0xBBDDCCAA)
    as (A & _ & C & _).
  pose proof (SET_IN_ARRAY_truncates [0x11; 0x22; 0x33; 0x44] 0 0xFFBBDDCCAA)
    as (_ & B & _ & D).
  split; [exact A|]. split; [exact B|].
  split; [apply C | apply D]; simpl; lia.
Defined.


(** X18. On a buffer of bytes [REVERSE_BYTES_IN_ARRAY_16BIT] exchanges the
    two bytes at the offset and [REVERSE_BYTES_IN_ARRAY_32BIT] puts the
    four bytes at the offset in the opposite order. *)
Theorem REVERSE_BYTES_IN_ARRAY_reverses data off :
  byte_buffer data ->
  ((off + 2 <= length data)%nat ->
     exists data', REVERSE_BYTES_IN_ARRAY_16BIT data off = Some data'
       /\ data' !! off = data !! (off + 1)%nat
       /\ data' !! (off + 1)%nat = data !! off)
  /\ ((off + 4 <= length data)%nat ->
     exists data', REVERSE_BYTES_IN_ARRAY_32BIT data off = Some data'
       /\ data' !! off = data !! (off + 3)%nat
       /\ data' !! (off + 1)%nat = data !! (off + 2)%nat
       /\ data' !! (off + 2)%nat = data !! (off + 1)%nat
       /\ data' !! (off + 3)%nat = data !! off).
Proof.
  intros Hbuf. split; intros Hoff.
  - destruct (lookup_in_buffer data (off + 0)) as [b0 H0]; [lia|].
    destruct (lookup_in_buffer data (off + 1)) as [b1 H1]; [lia|].
    pose proof (byte_buffer_lookup _ _ _ Hbuf H0) as E0.
    pose proof (byte_buffer_lookup _ _ _ Hbuf H1) as E1.
    eexists. split; [apply REVERSE_BYTES_IN_ARRAY_16BIT_Some; eassumption|].
    rewrite E0, E1. rewrite Nat.add_0_r in *. insert_lookup.
    now rewrite H0, H1.
  - destruct (lookup_in_buffer data (off + 0)) as [b0 H0]; [lia|].
    destruct (lookup_in_buffer data (off + 1)) as [b1 H1]; [lia|].
    destruct (lookup_in_buffer data (off + 2)) as [b2 H2]; [lia|].
    destruct (lookup_in_buffer data (off + 3)) as [b3 H3]; [lia|].
    pose proof (byte_buffer_lookup _ _ _ Hbuf H0) as E0.
    pose proof (byte_buffer_lookup _ _ _ Hbuf H1) as E1.
    pose proof (byte_buffer_lookup _ _ _ Hbuf H2) as E2.
    pose proof (byte_buffer_lookup _ _ _ Hbuf H3) as E3.
    eexists. split; [apply REVERSE_BYTES_IN_ARRAY_32BIT_Some; eassumption|].
    rewrite E0, E1, E2, E3. rewrite Nat.add_0_r in *. insert_lookup.
    now rewrite H0, H1, H2, H3.
Qed.

Lemma REVERSE_BYTES_IN_ARRAY_reverses_witness :
  (exists data', REVERSE_BYTES_IN_ARRAY_16BIT [0x11; 0x22; 0x33; 0x44; 0x55] 1
                 = Some data'
     /\ data' !! 1%nat = [0x11; 0x22; 0x33; 0x44; 0x55] !! (1 + 1)%nat
     /\ data' !! (1 + 1)%nat = [0x11; 0x22; 0x33; 0x44; 0x55] !! 1%nat)
  /\ (exists data', REVERSE_BYTES_IN_ARRAY_32BIT [0x11; 0x22; 0x33; 0x44; 0x55] 1
                    = Some data'
     /\ data' !! 1%nat = [0x11; 0x22; 0x33; 0x44; 0x55] !! (1 + 3)%nat
     /\ data' !! (1 + 1)%nat = [0x11; 0x22; 0x33; 0x44; 0x55] !! (1 + 2)%nat
     /\ data' !! (1 + 2)%nat = [0x11; 0x22; 0x33; 0x44; 0x55] !! (1 + 1)%nat
     /\ data' !! (1 + 3)%nat = [0x11; 0x22; 0x33; 0x44; 0x55] !! 1%nat).
Proof.
  assert (Hbuf : byte_buffer [0x11; 0x22; 0x33; 0x44; 0x55])
    by (unfold byte_buffer; repeat constructor; vm_compute; discriminate).
  pose proof (REVERSE_BYTES_IN_ARRAY_reverses
                [0x11; 0x22; 0x33; 0x44; 0x55] 1 Hbuf) as [H16 H32].
  split; [apply H16 | apply H32]; simpl; lia.
Defined.

(** X19. A word written by [SET_16_IN_ARRAY] or [SET_32_IN_ARRAY] and then
    reversed lies in the buffer in little-endian order: the byte at
    [offset + k] is [(v >> 8 * k) & 0xFF]. *)
Theorem SET_then_REVERSE_little_endian data off v :
  ((off + 2 <= length data)%nat -> in_range 16 v ->
     exists data',
       SET_16_IN_ARRAY data v off
         ≫= (λ d, REVERSE_BYTES_IN_ARRAY_16BIT d off) = Some data'
       /\ data' !! off = Some (Z.land v 0xFF)
       /\ data' !! (off + 1)%nat = Some (Z.land (Z.shiftr v 8) 0xFF))
  /\ ((off + 4 <= length data)%nat -> in_range 32 v ->
     exists data',
       SET_32_IN_ARRAY data v off
         ≫= (λ d, REVERSE_BYTES_IN_ARRAY_32BIT d off) = Some data'
       /\ data' !! off = Some (Z.land v 0xFF)
       /\ data' !! (off + 1)%nat = Some (Z.land (Z.shiftr v 8) 0xFF)
       /\ data' !! (off + 2)%nat = Some (Z.land (Z.shiftr v 16) 0xFF)
       /\ data' !! (off + 3)%nat = Some (Z.land (Z.shiftr v 24) 0xFF)).
Proof.
  split; intros Hoff Hv.
  - rewrite SET_16_IN_ARRAY_Some by assumption. simpl.
    erewrite REVERSE_BYTES_IN_ARRAY_16BIT_Some by (insert_lookup; reflexivity).
    eexists. split; [reflexivity|].
    rewrite Nat.add_0_r. insert_lookup.
    split; f_equal; bitwise_taut at [8; 16].
  - rewrite SET_32_IN_ARRAY_Some by assumption. simpl.
    erewrite REVERSE_BYTES_IN_ARRAY_32BIT_Some by (insert_lookup; reflexivity).
    eexists. split; [reflexivity|].
    rewrite Nat.add_0_r. insert_lookup.
    repeat split; f_equal; bitwise_taut at [8; 16; 24; 32].
Qed.

Lemma SET_then_REVERSE_little_endian_witness :
  (exists data',
      SET_16_IN_ARRAY [0x11; 0x22; 0x33; 0x44] 0x1234 1
        ≫= (λ d, REVERSE_BYTES_IN_ARRAY_16BIT d 1) = Some data'
      /\ data' !! 1%nat = Some (Z.land 0x1234 0xFF)
      /\ data' !! (1 + 1)%nat = Some (Z.land (Z.shiftr 0x1234 8) 0xFF))
  /\ (exists data',
      SET_32_IN_ARRAY [0x11; 0x22; 0x33; 0x44] 0x12345678 0
        ≫= (λ d, REVERSE_BYTES_IN_ARRAY_32BIT d 0) = Some data'
      /\ data' !! 0%nat = Some (Z.land 0x12345678 0xFF)
      /\ data' !! (0 + 1)%nat = Some (Z.land (Z.shiftr 0x12345678 8) 0xFF)
      /\ data' !! (0 + 2)%nat = Some (Z.land (Z.shiftr 0x12345678 16) 0xFF)
      /\ data' !! (0 + 3)%nat = Some (Z.land (Z.shiftr 0x12345678 24) 0xFF)).
Proof.
  split.
  - apply (proj1 (SET_then_REVERSE_little_endian [0x11; 0x22; 0x33; 0x44] 1 0x1234));
      [simpl; lia | unfold in_range; lia].
  - apply (proj2 (SET_then_REVERSE_little_endian [0x11; 0x22; 0x33; 0x44] 0 0x12345678));
      [simpl; lia | unfold in_range; lia].
Defined.



(** X21. A 32-bit access is two 16-bit accesses, the high half at the
    offset and the low half two bytes on: [SET_32_IN_ARRAY] writes what
    two calls of [SET_16_IN_ARRAY] write, and [GET_32_IN_ARRAY] reads the
    two results of [GET_16_IN_ARRAY] put together; where one is undefined
    so is the other. *)
Theorem array_32_as_two_16 data off v :
  SET_32_IN_ARRAY data v off
    = SET_16_IN_ARRAY data (Z.shiftr (uint32_t v) 16) off
        ≫= (λ d, SET_16_IN_ARRAY d v (off + 2))
  /\ (byte_buffer data ->
      GET_32_IN_ARRAY data off
      = GET_16_IN_ARRAY data off
          ≫= (λ high, GET_16_IN_ARRAY data (off + 2)
          ≫= (λ low, Some (Z.lor (Z.shiftl high 16) low)))).
Proof.
  split.
  - destruct (decide (off + 4 <= length data)%nat) as [Hoff|Hoff].
    + rewrite SET_32_IN_ARRAY_Some, SET_16_IN_ARRAY_Some by lia. simpl.
      rewrite SET_16_IN_ARRAY_Some by (rewrite !length_insert; lia).
      replace (off + 2 + 0)%nat with (off + 2)%nat by lia.
      replace (off + 2 + 1)%nat with (off + 3)%nat by lia.
      assert (E0 : uint8_t (Z.land (Z.shiftr (uint16_t (Z.shiftr (uint32_t v) 16)) 8) 0xFF)
                   = uint8_t (Z.land (Z.shiftr (uint32_t v) 24) 0xFF))
        by bitwise_taut at [8; 16; 24; 32].
      assert (E1 : uint8_t (Z.land (Z.shiftr (uint16_t (Z.shiftr (uint32_t v) 16)) 0) 0xFF)
                   = uint8_t (Z.land (Z.shiftr (uint32_t v) 16) 0xFF))
        by bitwise_taut at [8; 16; 24; 32].
      assert (E2 : uint8_t (Z.land (Z.shiftr (uint16_t v) 8) 0xFF)
                   = uint8_t (Z.land (Z.shiftr (uint32_t v) 8) 0xFF))
        by bitwise_taut at [8; 16; 24; 32].
      assert (E3 : uint8_t (Z.land (Z.shiftr (uint16_t v) 0) 0xFF)
                   = uint8_t (Z.land (Z.shiftr (uint32_t v) 0) 0xFF))
        by bitwise_taut at [8; 16; 24; 32].
      now rewrite E0, E1, E2, E3.
    + transitivity (@None (list Z)).
      * apply eq_None_not_Some. rewrite SET_32_IN_ARRAY_is_Some. lia.
      * symmetry. apply eq_None_not_Some. intros [d Hd].
        apply bind_Some in Hd as (d1 & Hd1 & Hd2).
        assert (H1 : is_Some (SET_16_IN_ARRAY data (Z.shiftr (uint32_t v) 16) off))
          by eauto.
        assert (H2 : is_Some (SET_16_IN_ARRAY d1 v (off + 2))) by eauto.
        apply SET_16_IN_ARRAY_is_Some in H1, H2.
        rewrite SET_16_IN_ARRAY_Some in Hd1 by assumption.
        injection Hd1 as <-. rewrite !length_insert in H2. lia.
  - intros Hbuf. unfold byte_buffer in Hbuf. rewrite Forall_lookup in Hbuf.
    unfold GET_32_IN_ARRAY, GET_16_IN_ARRAY, load_u8.
    replace (off + 2 + 0)%nat with (off + 2)%nat by lia.
    replace (off + 2 + 1)%nat with (off + 3)%nat by lia.
    destruct (data !! (off + 0)%nat) as [b3|] eqn:H3; [|reflexivity]. simpl.
    destruct (data !! (off + 1)%nat) as [b2|] eqn:H2; [|reflexivity]. simpl.
    destruct (data !! (off + 2)%nat) as [b1|] eqn:H1; [|reflexivity]. simpl.
    destruct (data !! (off + 3)%nat) as [b0|] eqn:H0; [|reflexivity]. simpl.
    pose proof (Hbuf _ _ H3) as R3. pose proof (Hbuf _ _ H2) as R2.
    pose proof (Hbuf _ _ H1) as R1. pose proof (Hbuf _ _ H0) as R0.
    f_equal. bitwise_taut at [8; 16; 24; 32].
Qed.

Lemma array_32_as_two_16_witness :
  SET_32_IN_ARRAY [0x11; 0x22; 0x33; 0x44; 0x55] 0x12345678 1
    = SET_16_IN_ARRAY [0x11; 0x22; 0x33; 0x44; 0x55]
                      (Z.shiftr (uint32_t 0x12345678) 16) 1
        ≫= (λ d, SET_16_IN_ARRAY d 0x12345678 (1 + 2))
  /\ GET_32_IN_ARRAY [0x11; 0x22; 0x33; 0x44; 0x55] 1
    = GET_16_IN_ARRAY [0x11; 0x22; 0x33; 0x44; 0x55] 1
        ≫= (λ high, GET_16_IN_ARRAY [0x11; 0x22; 0x33; 0x44; 0x55] (1 + 2)
        ≫= (λ low, Some (Z.lor (Z.shiftl high 16) low))).
Proof.
  assert (Hbuf : byte_buffer [0x11; 0x22; 0x33; 0x44; 0x55])
    by (unfold byte_buffer; repeat constructor; vm_compute; discriminate).
  pose proof (array_32_as_two_16 [0x11; 0x22; 0x33; 0x44; 0x55] 1 0x12345678)
    as [A B].
  split; [exact A | exact (B Hbuf)].
Defined.

(** X22. Accesses to words that do not overlap do not disturb each other:
    two writes of 16 bits at offsets at least 2 apart give the same buffer
    in either order, and a read at one returns what it returned before the
    write at the other. *)
Theorem SET_16_IN_ARRAY_disjoint data off1 off2 v1 v2 :
  (off1 + 2 <= off2)%nat ->
  SET_16_IN_ARRAY data v1 off1 ≫= (λ d, SET_16_IN_ARRAY d v2 off2)
    = SET_16_IN_ARRAY data v2 off2 ≫= (λ d, SET_16_IN_ARRAY d v1 off1)
  /\ SET_16_IN_ARRAY data v1 off1 ≫= (λ d, GET_16_IN_ARRAY d off2)
    = SET_16_IN_ARRAY data v1 off1 ≫= (λ _, GET_16_IN_ARRAY data off2)
  /\ SET_16_IN_ARRAY data v2 off2 ≫= (λ d, GET_16_IN_ARRAY d off1)
    = SET_16_IN_ARRAY data v2 off2 ≫= (λ _, GET_16_IN_ARRAY data off1).
Proof.
  intros Hapart. split; [|split].
  - destruct (decide (off2 + 2 <= length data)%nat) as [Hoff|Hoff].
    + rewrite !SET_16_IN_ARRAY_Some by lia. simpl.
      rewrite !SET_16_IN_ARRAY_Some by (rewrite !length_insert; lia).
      f_equal. apply list_eq. intros i.
      destruct (decide (i = off1 + 0)%nat) as [->|];
        [| destruct (decide (i = off1 + 1)%nat) as [->|];
           [| destruct (decide (i = off2 + 0)%nat) as [->|];
              [| destruct (decide (i = off2 + 1)%nat) as [->|]]]];
        insert_lookup; reflexivity.
    + assert (Hnone : forall d, length d = length data ->
                SET_16_IN_ARRAY d v2 off2 = None).
      { intros d Hd. apply eq_None_not_Some.
        rewrite SET_16_IN_ARRAY_is_Some. lia. }
      rewrite (Hnone data eq_refl). simpl.
      destruct (decide (off1 + 2 <= length data)%nat) as [Hoff1|Hoff1].
      * rewrite SET_16_IN_ARRAY_Some by lia. simpl.
        apply Hnone. now rewrite !length_insert.
      * replace (SET_16_IN_ARRAY data v1 off1) with (@None (list Z));
          [reflexivity|].
        symmetry. apply eq_None_not_Some. rewrite SET_16_IN_ARRAY_is_Some. lia.
  - destruct (decide (off1 + 2 <= length data)%nat) as [Hoff1|Hoff1].
    + rewrite SET_16_IN_ARRAY_Some by lia. simpl.
      unfold GET_16_IN_ARRAY, load_u8. now insert_lookup.
    + replace (SET_16_IN_ARRAY data v1 off1) with (@None (list Z));
        [reflexivity|].
      symmetry. apply eq_None_not_Some. rewrite SET_16_IN_ARRAY_is_Some. lia.
  - destruct (decide (off2 + 2 <= length data)%nat) as [Hoff2|Hoff2].
    + rewrite SET_16_IN_ARRAY_Some by lia. simpl.
      unfold GET_16_IN_ARRAY, load_u8. now insert_lookup.
    + replace (SET_16_IN_ARRAY data v2 off2) with (@None (list Z));
        [reflexivity|].
      symmetry. apply eq_None_not_Some. rewrite SET_16_IN_ARRAY_is_Some. lia.
Qed.

Lemma SET_16_IN_ARRAY_disjoint_witness :
  SET_16_IN_ARRAY [0x11; 0x22; 0x33; 0x44] 0xAABB 0
      ≫= (λ d, SET_16_IN_ARRAY d 0xCCDD 2)
    = SET_16_IN_ARRAY [0x11; 0x22; 0x33; 0x44] 0xCCDD 2
      ≫= (λ d, SET_16_IN_ARRAY d 0xAABB 0)
  /\ SET_16_IN_ARRAY [0x11; 0x22; 0x33; 0x44] 0xAABB 0
      ≫= (λ d, GET_16_IN_ARRAY d 2)
    = SET_16_IN_ARRAY [0x11; 0x22; 0x33; 0x44] 0xAABB 0
      ≫= (λ _, GET_16_IN_ARRAY [0x11; 0x22; 0x33; 0x44] 2)
  /\ SET_16_IN_ARRAY [0x11; 0x22; 0x33; 0x44] 0xCCDD 2
      ≫= (λ d, GET_16_IN_ARRAY d 0)
    = SET_16_IN_ARRAY [0x11; 0x22; 0x33; 0x44] 0xCCDD 2
      ≫= (λ _, GET_16_IN_ARRAY [0x11; 0x22; 0x33; 0x44] 0).
Proof.
  apply (SET_16_IN_ARRAY_disjoint [0x11; 0x22; 0x33; 0x44] 0 2 0xAABB 0xCCDD).
  lia.
Defined.

End ArrayProperties.

(** ** The time functions of the desktop platform *)

Section TimeFacts.

Lemma int64_Some (x : Z) : INT64_MIN <= x <= INT64_MAX -> int64 x = Some x.
Proof. intros Hx. unfold int64. now rewrite decide_True. Qed.

End TimeFacts.

Ltac int64_arith :=
  unfold INT64_MIN, INT64_MAX in *;
  change (2 ^ 63) with 9223372036854775808 in *;
  Z.quot_rem_to_equations; lia.

Section TimeProperties.

(** X23. A count of milliseconds or of seconds that fits the type after
    scaling to microseconds comes back unchanged from the matching
    [libos_time_to_ms] or [libos_time_to_s]; a count of microseconds
    always does. *)
Theorem libos_time_from_then_to (x : Z) :
  (INT64_MIN <= x * 1000 <= INT64_MAX ->
     exists t, libos_time_from_ms x = Some t /\ libos_time_to_ms t = x)
  /\ (INT64_MIN <= x * 1000000 <= INT64_MAX ->
     exists t, libos_time_from_s x = Some t
               /\ libos_time_to_s t = x /\ libos_time_to_ms t = x * 1000)
  /\ (exists t, libos_time_from_us x = Some t /\ libos_time_to_us t = x).
Proof.
  split; [|split].
  - intros Hx. exists (x * 1000). split.
    + unfold libos_time_from_ms. now apply int64_Some.
    + unfold libos_time_to_ms. int64_arith.
  - intros Hx. exists (x * 1000 * 1000). split; [|split].
    + unfold libos_time_from_s.
      rewrite int64_Some by int64_arith. simpl.
      apply int64_Some. int64_arith.
    + unfold libos_time_to_s. int64_arith.
    + unfold libos_time_to_ms. int64_arith.
  - exists x. split; reflexivity.
Qed.

Lemma libos_time_from_then_to_witness :
  (exists t, libos_time_from_ms (-1500) = Some t /\ libos_time_to_ms t = -1500)
  /\ (exists t, libos_time_from_s 5 = Some t
                /\ libos_time_to_s t = 5 /\ libos_time_to_ms t = 5 * 1000)
  /\ (exists t, libos_time_from_us 7 = Some t /\ libos_time_to_us t = 7).
Proof.
  split; [|split].
  - apply (proj1 (libos_time_from_then_to (-1500))). vm_compute.
    split; discriminate.
  - apply (proj1 (proj2 (libos_time_from_then_to 5))). vm_compute.
    split; discriminate.
  - apply (proj2 (proj2 (libos_time_from_then_to 7))).
Defined.

(** X24. The other way round a time loses what is below the unit, towards
    zero: [libos_time_from_ms (libos_time_to_ms t)] is defined for every
    time of the type, lies between zero and [t], and is less than a
    millisecond away from it; a negative time rounds up, not down. *)
Theorem libos_time_to_then_from (t : Z) :
  INT64_MIN <= t <= INT64_MAX ->
  exists t', libos_time_from_ms (libos_time_to_ms t) = Some t'
    /\ t' = t - Z.rem t 1000
    /\ Z.abs t' <= Z.abs t
    /\ Z.abs (t - t') < 1000
    /\ (t < 0 -> t <= t').
Proof.
  intros Ht. exists (Z.quot t 1000 * 1000).
  unfold libos_time_from_ms, libos_time_to_ms.
  split; [apply int64_Some; int64_arith|].
  repeat split; int64_arith.
Qed.

Lemma libos_time_to_then_from_witness :
  exists t', libos_time_from_ms (libos_time_to_ms (-1500)) = Some t'
    /\ t' = -1500 - Z.rem (-1500) 1000
    /\ Z.abs t' <= Z.abs (-1500)
    /\ Z.abs (-1500 - t') < 1000
    /\ (-1500 < 0 -> -1500 <= t').
Proof.
  apply (libos_time_to_then_from (-1500)). vm_compute. split; discriminate.
Defined.

(** X25. The differences are antisymmetric in every unit: where [a - b]
    and [b - a] both fit the type, the difference from [b] to [a] is the
    negation of the difference from [a] to [b], also after the division
    to milliseconds or seconds. *)
Theorem libos_time_difference_antisymmetric (a b : Z) :
  INT64_MIN < a - b <= INT64_MAX ->
  (exists d, libos_time_difference_us a b = Some d
             /\ libos_time_difference_us b a = Some (- d))
  /\ (exists d, libos_time_difference_ms a b = Some d
             /\ libos_time_difference_ms b a = Some (- d))
  /\ (exists d, libos_time_difference_s a b = Some d
             /\ libos_time_difference_s b a = Some (- d)).
Proof.
  intros Hd.
  assert (Hab : int64 (a - b) = Some (a - b)) by (apply int64_Some; int64_arith).
  assert (Hba : int64 (b - a) = Some (b - a)) by (apply int64_Some; int64_arith).
  unfold libos_time_difference_us, libos_time_difference_ms,
    libos_time_difference_s. rewrite Hab, Hba. simpl.
  split; [|split]; eexists; (split; [reflexivity|]); f_equal.
  - lia.
  - int64_arith.
  - int64_arith.
Qed.

Lemma libos_time_difference_antisymmetric_witness :
  (exists d, libos_time_difference_us 1000 2500 = Some d
             /\ libos_time_difference_us 2500 1000 = Some (- d))
  /\ (exists d, libos_time_difference_ms 1000 2500 = Some d
             /\ libos_time_difference_ms 2500 1000 = Some (- d))
  /\ (exists d, libos_time_difference_s 1000 2500 = Some d
             /\ libos_time_difference_s 2500 1000 = Some (- d)).
Proof.
  apply (libos_time_difference_antisymmetric 1000 2500). vm_compute.
  split; [reflexivity | discriminate].
Defined.

(** X26. The three comparisons agree with the sign of the difference in
    microseconds: [libos_time_is_later a b] is true exactly when [a - b]
    is positive, [libos_time_is_earlier a b] when it is negative and
    [libos_time_is_same a b] when it is zero, so exactly one of them
    holds. *)
Theorem libos_time_comparisons_and_difference (a b : Z) :
  INT64_MIN <= a - b <= INT64_MAX ->
  exists d, libos_time_difference_us a b = Some d
    /\ libos_time_is_later a b = (0 <? d)
    /\ libos_time_is_earlier a b = (d <? 0)
    /\ libos_time_is_same a b = (d =? 0)
    /\ libos_time_is_later a b = libos_time_is_earlier b a
    /\ libos_time_is_same a b
       = negb (libos_time_is_later a b || libos_time_is_earlier a b).
Proof.
  intros Hd. exists (a - b).
  unfold libos_time_difference_us, libos_time_is_later, libos_time_is_earlier,
    libos_time_is_same.
  split; [now apply int64_Some|].
  rewrite Z.gtb_ltb.
  destruct (Z.ltb_spec b a), (Z.ltb_spec a b), (Z.eqb_spec a b),
    (Z.ltb_spec 0 (a - b)), (Z.ltb_spec (a - b) 0), (Z.eqb_spec (a - b) 0);
    try lia; repeat split; reflexivity.
Qed.

Lemma libos_time_comparisons_and_difference_witness :
  exists d, libos_time_difference_us 2500 1000 = Some d
    /\ libos_time_is_later 2500 1000 = (0 <? d)
    /\ libos_time_is_earlier 2500 1000 = (d <? 0)
    /\ libos_time_is_same 2500 1000 = (d =? 0)
    /\ libos_time_is_later 2500 1000 = libos_time_is_earlier 1000 2500
    /\ libos_time_is_same 2500 1000
       = negb (libos_time_is_later 2500 1000 || libos_time_is_earlier 2500 1000).
Proof.
  apply (libos_time_comparisons_and_difference 2500 1000). vm_compute.
  split; discriminate.
Defined.

(** X27. For a [timeval] with a fraction below one second whose count of
    microseconds fits the type, [libos_time_get_now] is defined, gives
    back the seconds through [libos_time_to_s], and orders two readings
    as their seconds, then their fractions, order them. *)
Theorem libos_time_get_now_seconds (sec usec sec' usec' : Z) :
  0 <= sec -> 0 <= usec < 1000000 -> sec * 1000000 + usec <= INT64_MAX ->
  0 <= sec' -> 0 <= usec' < 1000000 -> sec' * 1000000 + usec' <= INT64_MAX ->
  exists t t',
    libos_time_get_now sec usec = Some t
    /\ libos_time_get_now sec' usec' = Some t'
    /\ libos_time_to_s t = sec
    /\ libos_time_to_us t = sec * 1000000 + usec
    /\ libos_time_is_later t' t
       = (sec <? sec') || ((sec =? sec') && (usec <? usec')).
Proof.
  intros Hsec Husec Hfit Hsec' Husec' Hfit'.
  exists (sec * 1000000 + usec), (sec' * 1000000 + usec').
  unfold libos_time_get_now.
  rewrite (int64_Some (sec * 1000000)), (int64_Some (sec' * 1000000))
    by int64_arith.
  simpl.
  rewrite (int64_Some (sec * 1000000 + usec)),
    (int64_Some (sec' * 1000000 + usec')) by int64_arith.
  split; [reflexivity|]. split; [reflexivity|].
  split; [unfold libos_time_to_s; int64_arith|].
  split; [reflexivity|].
  unfold libos_time_is_later. rewrite Z.gtb_ltb.
  destruct (Z.ltb_spec (sec * 1000000 + usec) (sec' * 1000000 + usec')),
    (Z.ltb_spec sec sec'), (Z.eqb_spec sec sec'), (Z.ltb_spec usec usec');
    try lia; reflexivity.
Qed.

Lemma libos_time_get_now_seconds_witness :
  exists t t',
    libos_time_get_now 1700000000 999999 = Some t
    /\ libos_time_get_now 1700000001 0 = Some t'
    /\ libos_time_to_s t = 1700000000
    /\ libos_time_to_us t = 1700000000 * 1000000 + 999999
    /\ libos_time_is_later t' t
       = (1700000000 <? 1700000001)
         || ((1700000000 =? 1700000001) && (999999 <? 0)).
Proof.
  apply (libos_time_get_now_seconds 1700000000 999999 1700000001 0);
    try lia; vm_compute; discriminate.
Defined.

End TimeProperties.

(** ** The log backend of the desktop platform *)

Section LogFacts.

Lemma append_nothing (out text : string) :
  out +:+ text = out -> text = EmptyString.
Proof.
  induction out as [|c out IH]; simpl; [auto|].
  intros Heq. injection Heq as Heq. auto.
Qed.

Lemma append_ends_in_newline (text : string) : text +:+ newline <> EmptyString.
Proof. destruct text; discriminate. Qed.

Lemma append_is_empty (a b : string) :
  a +:+ b = EmptyString -> b = EmptyString.
Proof. destruct a; [auto | discriminate]. Qed.

(** The line that [libos_log_print] writes when it writes. *)
Lemma libos_log_print_line now out lvl m message :
  m.(level) < lvl ->
  libos_log_print now out lvl (Some m) message
  = out +:+ (printf_8_PRId64 (libos_time_to_ms now) +:+ " [" +:+ m.(name)
               +:+ "] " +:+ err_to_name lvl +:+ ": ")
        +:+ message +:+ newline.
Proof.
  intros Hlvl. unfold libos_log_print.
  rewrite Z.gtb_ltb. apply Z.ltb_lt in Hlvl. now rewrite Hlvl.
Qed.

Lemma libos_log_print_silent now out lvl m message :
  lvl <= m.(level) -> libos_log_print now out lvl (Some m) message = out.
Proof.
  intros Hlvl. unfold libos_log_print.
  rewrite Z.gtb_ltb. apply Z.ltb_ge in Hlvl. now rewrite Hlvl.
Qed.

End LogFacts.

Section LogProperties.

(** X28. [libos_log_print] leaves the output as it is when the module is
    [NULL] or the level is not above the level of the module, and in no
    other case; when it writes, it appends one line to the output: the
    time in milliseconds, the name of the module in brackets, the name of
    the level, the message and a newline. *)
Theorem libos_log_print_filter now out lvl module message :
  (libos_log_print now out lvl module message = out
   <-> module = None \/ exists m, module = Some m /\ lvl <= m.(level))
  /\ (forall m, module = Some m -> m.(level) < lvl ->
        libos_log_print now out lvl module message
        = out +:+ (printf_8_PRId64 (Z.quot now 1000) +:+ " [" +:+ m.(name)
                     +:+ "] " +:+ err_to_name lvl +:+ ": ")
              +:+ message +:+ newline).
Proof.
  split.
  - destruct module as [m|]; [|split; [now left | reflexivity]].
    destruct (Z.lt_ge_cases m.(level) lvl) as [Hlt|Hge].
    + rewrite libos_log_print_line by assumption. split.
      * intros Heq. apply append_nothing, append_is_empty in Heq.
        now apply append_ends_in_newline in Heq.
      * intros [Hnone|(m' & Hm' & Hle)]; [discriminate|].
        injection Hm' as <-. lia.
    + rewrite libos_log_print_silent by assumption.
      split; [|reflexivity]. intros _. right. eauto.
  - intros m -> Hlt. now apply libos_log_print_line.
Qed.

Lemma libos_log_print_filter_witness :
  libos_log_print 1234567 "boot" 3
    (Some (LIBOS_LOG_MODULE_MIN_LEVEL "main" 2)) "hello"
  = "boot" +:+ (printf_8_PRId64 (Z.quot 1234567 1000) +:+ " [" +:+ "main"
                  +:+ "] " +:+ err_to_name 3 +:+ ": ")
           +:+ "hello" +:+ newline.
Proof.
  apply (proj2 (libos_log_print_filter 1234567 "boot" 3
                  (Some (LIBOS_LOG_MODULE_MIN_LEVEL "main" 2)) "hello")
           (LIBOS_LOG_MODULE_MIN_LEVEL "main" 2) eq_refl).
  simpl; lia.
Defined.


End LogProperties.
